(** * roam2tex: a shallow embedding of the Roam-markdown to LaTeX converter

    The development follows [roam2tex.py]: first the Python and [re]
    primitives the script relies on, then [render_citation],
    [replace_markup_via] and the line loop of [convert_to_tex], then the
    properties of the structure tracker and of the inline renderer.

    Characters are bytes.  Every pattern of the script mentions only ASCII
    characters, the dot and negated classes, so matching on the UTF-8 bytes of
    a line agrees with matching on its code points.  Python integers are [Z];
    list positions and lengths are [nat]. *)

From Stdlib Require Import ZArith Ascii String.
From stdpp Require Import base tactics option list numbers strings sorting.

Local Open Scope Z_scope.

(** ** Exceptions

    A computation of the script returns a value or raises; nothing in the
    script catches an exception, so the first one ends the run. *)

Inductive exn : Set := TypeError | ValueError | IndexError | AttributeError.

Inductive result (A : Type) : Type :=
| Ok (a : A)
| Raise (e : exn).
Arguments Ok {A} a.
Arguments Raise {A} e.

#[global] Instance result_ret : MRet result := λ A a, Ok a.
#[global] Instance result_bind : MBind result := λ A B f m,
  match m with
  | Ok a => f a
  | Raise e => Raise e
  end.

(** ** Python strings *)

Definition newline : ascii := "010"%char.
Definition nl : string := String newline "".

Module Py.

(** [s[len(p):]] when [s.startswith(p)]; also a literal in a pattern. *)
Fixpoint strip_prefix (p s : string) : option string :=
  match p with
  | "" => Some s
  | String a p' =>
      match s with
      | String b s' => if Ascii.eqb a b then strip_prefix p' s' else None
      | "" => None
      end
  end.

Definition startswith (s p : string) : bool :=
  if strip_prefix p s is Some _ then true else false.

(** [s.startswith(tuple(ps))] *)
Definition startswith_any (s : string) (ps : list string) : bool :=
  existsb (startswith s) ps.

(** [d in s] *)
Fixpoint contains (d s : string) : bool :=
  startswith s d ||
  match s with
  | "" => false
  | String _ s' => contains d s'
  end.

(** [sep.join(chunks)] *)
Fixpoint join (sep : string) (chunks : list string) : string :=
  match chunks with
  | [] => ""
  | [c] => c
  | c :: cs => c +:+ sep +:+ join sep cs
  end.

Definition push_char (c : ascii) (chunks : list string) : list string :=
  match chunks with
  | [] => [String c ""]
  | h :: t => String c h :: t
  end.

(** The scan of [text.split(delims)]: occurrences are taken leftmost first
    and do not overlap.  [skip] counts the characters of the delimiter just
    found that are still to be passed over. *)
Fixpoint split_scan (delims : string) (skip : nat) (text : string) : list string :=
  match text with
  | "" => [""]
  | String c rest =>
      match skip with
      | S k => split_scan delims k rest
      | O =>
          if startswith text delims
          then "" :: split_scan delims (pred (String.length delims)) rest
          else push_char c (split_scan delims 0 rest)
      end
  end.

(** [text.split(delims)]; an empty separator is a [ValueError]. *)
Definition split (text delims : string) : result (list string) :=
  match delims with
  | "" => Raise ValueError
  | _ => Ok (split_scan delims 0 text)
  end.

(** [text.replace(old, new)] for a non-empty [old]. *)
Definition replace (text old new : string) : string :=
  join new (split_scan old 0 text).

(** [range(start, stop, step)] for a positive step. *)
Fixpoint range_from (start step count : nat) : list nat :=
  match count with
  | O => []
  | S k => start :: range_from (start + step) step k
  end.

Definition range (start stop step : nat) : list nat :=
  range_from start step ((stop - start + step - 1) `div` step)%nat.

(** [l[i]] *)
Definition getitem {A} (l : list A) (i : nat) : result A :=
  match l !! i with
  | Some a => Ok a
  | None => Raise IndexError
  end.

(** [l.pop(i)] for [0 <= i], keeping the list only. *)
Definition pop {A} (l : list A) (i : nat) : result (list A) :=
  if decide (i < length l)%nat then Ok (delete i l) else Raise IndexError.

(** [l.remove(x)]: the first occurrence goes, a missing one is a
    [ValueError]. *)
Fixpoint remove (x : Z) (l : list Z) : result (list Z) :=
  match l with
  | [] => Raise ValueError
  | y :: l' =>
      if decide (x = y) then Ok l'
      else l'' ← remove x l'; Ok (y :: l'')
  end.

(** [for line in infile], on the text as the file object decodes it, line
    ends being line feeds: every line keeps its line feed; the last one may
    have none. *)
Fixpoint readlines (content : string) : list string :=
  match content with
  | "" => []
  | String c rest =>
      if Ascii.eqb c newline then String c "" :: readlines rest
      else match readlines rest with
           | [] => [String c ""]
           | l :: ls => String c l :: ls
           end
  end.

End Py.

(** ** The fragment of [re] the script uses

    A pattern is a matcher in continuation style: it consumes a prefix of the
    subject and hands the remainder to the continuation [k]; when [k] fails
    the matcher backtracks as Python's engine does.  The final continuation
    returns the unmatched remainder. *)

Module Re.

Definition dot (c : ascii) : bool := negb (Ascii.eqb c newline).
Definition is_char (a c : ascii) : bool := Ascii.eqb a c.
Definition not_char (a c : ascii) : bool := negb (Ascii.eqb a c).

Definition lit {B} (l : string) (k : string → option B) (s : string) : option B :=
  Py.strip_prefix l s ≫= k.

(** An optional literal group followed by [k]: the group is tried first. *)
Definition opt_lit {B} (l : string) (k : string → option B) (s : string) : option B :=
  match lit l k s with
  | Some b => Some b
  | None => k s
  end.

(** A greedy starred class followed by [k]: the longest run first, then
    shorter ones. *)
Fixpoint greedy_star {B} (p : ascii → bool) (k : string → option B) (s : string)
    : option (string * B) :=
  match s with
  | String c s' =>
      if p c then
        match greedy_star p k s' with
        | Some (g, b) => Some (String c g, b)
        | None => b ← k s; Some ("", b)
        end
      else b ← k s; Some ("", b)
  | "" => b ← k s; Some ("", b)
  end.

(** A greedy class repeated at least once, followed by [k]. *)
Definition greedy_plus {B} (p : ascii → bool) (k : string → option B) (s : string)
    : option (string * B) :=
  match s with
  | String c s' =>
      if p c then '(g, b) ← greedy_star p k s'; Some (String c g, b) else None
  | "" => None
  end.

(** A lazy starred class followed by [k]: the shortest run first, then
    longer ones. *)
Fixpoint lazy_star {B} (p : ascii → bool) (k : string → option B) (s : string)
    : option (string * B) :=
  match k s with
  | Some b => Some ("", b)
  | None =>
      match s with
      | String c s' =>
          if p c then '(g, b) ← lazy_star p k s'; Some (String c g, b)
          else None
      | "" => None
      end
  end.

(** A lazy class repeated at least once, followed by [k]. *)
Definition lazy_plus {B} (p : ascii → bool) (k : string → option B) (s : string)
    : option (string * B) :=
  match s with
  | String c s' =>
      if p c then '(g, b) ← lazy_star p k s'; Some (String c g, b)
      else None
  | "" => None
  end.

(** [$] without [re.MULTILINE]: the end of the subject, or just before a
    line feed that ends it. *)
Definition eos (s : string) : option string :=
  if decide (s = "" ∨ s = nl) then Some s else None.

Definition rest (s : string) : option string := Some s.

(** [re.sub] with a pattern anchored by [^]: one attempt, at position 0.
    [m] returns the replacement and the unmatched remainder. *)
Definition sub_anchored (m : string → option (string * string)) (s : string) : string :=
  match m s with
  | Some (repl, tail) => repl +:+ tail
  | None => s
  end.

(** [re.sub] with a pattern that cannot match the empty string: the subject
    is scanned from the left, a match is replaced and the scan resumes
    behind it.  [skip] counts the characters of the last match still to be
    passed over. *)
Fixpoint sub_scan (m : string → option (string * string)) (skip : nat) (s : string)
    : string :=
  match s with
  | "" => ""
  | String c s' =>
      match skip with
      | S k => sub_scan m k s'
      | O =>
          match m s with
          | Some (repl, tail) =>
              repl +:+ sub_scan m (String.length s' - String.length tail) s'
          | None => String c (sub_scan m 0 s')
          end
      end
  end.

Definition sub (m : string → option (string * string)) (s : string) : string :=
  sub_scan m 0 s.

End Re.

(** ** The script *)

(** [for x in xs: body] over a state threaded through the body. *)
Fixpoint for_each {A S} (body : S → A → result S) (xs : list A) (s : S) : result S :=
  match xs with
  | [] => Ok s
  | x :: xs' => s' ← body s x; for_each body xs' s'
  end.

Definition is_alpha (c : ascii) : bool :=
  let n := nat_of_ascii c in
  ((97 <=? n) && (n <=? 122) || (65 <=? n) && (n <=? 90))%nat.

Definition is_digit (c : ascii) : bool :=
  let n := nat_of_ascii c in ((48 <=? n) && (n <=? 57))%nat.

(** The pattern of a citation key, "^[a-zA-Z]+[0-9]+[a-zA-Z]*$". *)
Definition citation_key (link_text : string) : bool :=
  if Re.greedy_plus is_alpha
       (Re.greedy_plus is_digit (Re.greedy_star is_alpha Re.eos)) link_text
  is Some _ then true else false.

(** [render_citation], given group 1 of the link match.  The string that is
    returned for a key is a plain literal in the script, not an f-string. *)
Definition render_citation (link_text : string) : string :=
  if negb (citation_key link_text) then link_text
  else "\cite{link_text}".

(** [chunks[i] = fun(chunks[i])] *)
Definition markup_body (f : string → string) (chunks : list string) (i : nat)
    : result (list string) :=
  c ← Py.getitem chunks i; Ok (<[i := f c]> chunks).

Definition replace_markup_via (text delims : string) (f : string → string)
    : result string :=
  chunks ← Py.split text delims;
  chunks ← for_each (markup_body f) (Py.range 1 (length chunks) 2) chunks;
  Ok (Py.join "" chunks).

(** The state of the line loop of [convert_to_tex]. *)
Record tracker : Type := Tracker {
  section_indent : option Z;
  par_indent : option Z;
  environments : list (Z * string);
  enum_indents : list Z
}.

Definition initial : tracker :=
  {| section_indent := None; par_indent := None;
     environments := []; enum_indents := [] |}.

Definition is_list_env (env : string) : bool :=
  bool_decide (env ∈ ["enumerate"; "itemize"]).

Definition end_command (env : string) : string := "\end{" +:+ env +:+ "}" +:+ nl.

(** "^ *" at the head of the raw line: group 0 and the remainder. *)
Definition match_indent (line : string) : option (string * string) :=
  Re.greedy_star (Re.is_char " ") Re.rest line.

(** "^ *(- )?" replaced by the empty string. *)
Definition strip_bullet (line : string) : string :=
  Re.sub_anchored
    (λ s, '(_, tail) ← Re.greedy_star (Re.is_char " ") (Re.opt_lit "- " Re.rest) s;
          Some ("", tail))
    line.

(** "^\{\{(.+?)\}\}" replaced by the empty string. *)
Definition strip_directive (line : string) : string :=
  Re.sub_anchored
    (λ s, '(_, tail) ← Re.lit "{{" (Re.lazy_plus Re.dot (Re.lit "}}" Re.rest)) s;
          Some ("", tail))
    line.

(** Lines 57 to 64: the text of the line once indentation, bullet, ignored
    properties and a leading directive are gone. *)
Definition clean (ignore_properties : list string) (line : string) : string :=
  let line := strip_bullet line in
  let line :=
    if Py.startswith_any line (map (λ s, s +:+ "::") ignore_properties)
    then "" else line in
  strip_directive line.

(** [re.search] of "^#". *)
Definition is_section (line : string) : bool :=
  if Re.lit "#" Re.rest line is Some _ then true else false.

(** A heading pattern, "^" then the marker then a greedy group of dots,
    replaced by a line feed and the sectioning command around group 1. *)
Definition sub_heading (marker command : string) (line : string) : string :=
  Re.sub_anchored
    (λ s, '(g, tail) ← Re.lit marker (Re.greedy_star Re.dot Re.rest) s;
          Some (nl +:+ command +:+ "{" +:+ g +:+ "}", tail))
    line.

Definition headings (line : string) : string :=
  let line := sub_heading "# " "\section" line in
  let line := sub_heading "## " "\subsection" line in
  sub_heading "### " "\subsubsection" line.

(** [re.match] of "\\begin\{(.*?)\}": group 1. *)
Definition env_begin (line : string) : option string :=
  fst <$> Re.lit "\begin{" (Re.lazy_star Re.dot (Re.lit "}" Re.rest)) line.

(** [re.match] of "^\$\$([^$]*?)\$\$$": group 1. *)
Definition latex_eq (line : string) : option string :=
  fst <$> Re.lit "$$" (Re.lazy_star (Re.not_char "$") (Re.lit "$$" Re.eos)) line.

Definition equation_block (content : string) : string :=
  "\begin{equation*}" +:+ nl +:+ content +:+ nl +:+ "\end{equation*}".

(** "\[\[(.*?)\]\]" with [render_citation]. *)
Definition sub_links (line : string) : string :=
  Re.sub
    (λ s, '(g, tail) ← Re.lit "[[" (Re.lazy_star Re.dot (Re.lit "]]" Re.rest)) s;
          Some (render_citation g, tail))
    line.

(** The markdown link: a bracketed lazy group of dots, then a parenthesised
    greedy one; replaced by the hyperlink command. *)
Definition sub_hrefs (line : string) : string :=
  Re.sub
    (λ s, '(g1, (g2, tail)) ←
            Re.lit "[" (Re.lazy_star Re.dot
              (Re.lit "](" (Re.greedy_star Re.dot (Re.lit ")" Re.rest)))) s;
          Some ("\href{" +:+ g2 +:+ "}{" +:+ g1 +:+ "}", tail))
    line.

Definition emph (t : string) : string := "\emph{" +:+ t +:+ "}".
Definition textbf (t : string) : string := "\textbf{" +:+ t +:+ "}".
Definition hl (t : string) : string := "\hl{" +:+ t +:+ "}".

(** Lines 111 to 113. *)
Definition markup (line : string) : result string :=
  line ← replace_markup_via line "__" emph;
  line ← replace_markup_via line "**" textbf;
  replace_markup_via line "^^" hl.

(** Lines 111 to 119: the branch of a line that is no equation, before the
    item marker. *)
Definition inline (line : string) : result string :=
  line ← markup line;
  let line := Py.replace line "$$" "$" in
  let line := sub_links line in
  Ok (sub_hrefs line).

(** Lines 77 to 86.  [snapshot] is what is left of the reversed copy
    [environments[::-1]], [i] the position reached in it and [length] the
    length taken before the loop; [length - i - 1] is never negative there. *)
Fixpoint close_environments (indent indent_size : Z) (length i : nat)
    (snapshot : list (Z * string)) (acc : string * list (Z * string) * list Z)
    : result (string * list (Z * string) * list Z) :=
  match snapshot with
  | [] => Ok acc
  | (ind, env) :: snapshot' =>
      let '(add_text, environments, enum_indents) := acc in
      if bool_decide (indent ≤ ind) then
        let add_text := add_text +:+ end_command env in
        environments ← Py.pop environments (length - i - 1);
        enum_indents ←
          (if is_list_env env then Py.remove (ind + indent_size) enum_indents
           else Ok enum_indents);
        close_environments indent indent_size length (S i) snapshot'
          (add_text, environments, enum_indents)
      else Ok acc
  end.

(** Lines 88 to 90.  Comparing an integer with [None] is a [TypeError]. *)
Definition paragraph_break (indent : Z) (par_indent : option Z) (add_text : string)
    : result (string * option Z) :=
  match par_indent with
  | None => Raise TypeError
  | Some p =>
      if bool_decide (indent ≤ p) then Ok (add_text +:+ nl, Some indent)
      else Ok (add_text, Some p)
  end.

(** Lines 98 to 103. *)
Definition open_environment (indent indent_size : Z) (line : string)
    (environments : list (Z * string)) (enum_indents : list Z)
    : list (Z * string) * list Z :=
  match env_begin line with
  | Some environment =>
      (environments ++ [(indent, environment)],
       if is_list_env environment then enum_indents ++ [indent + indent_size]
       else enum_indents)
  | None => (environments, enum_indents)
  end.

(** Lines 106 to 122. *)
Definition render (indent : Z) (enum_indents : list Z) (line : string) : result string :=
  match latex_eq line with
  | Some content => Ok (equation_block content)
  | None =>
      line ← inline line;
      Ok (if bool_decide (indent ∈ enum_indents) then "\item " +:+ line else line)
  end.

(** The body of the loop over the lines, lines 55 to 126: the new state and
    the text handed to [outfile.write]. *)
Definition process_line (indent_size : Z) (ignore_properties : list string)
    (st : tracker) (line : string) : result (tracker * string) :=
  indent ← (if match_indent line is Some (g, _)
            then Ok (Z.of_nat (String.length g)) else Raise AttributeError);
  let line := clean ignore_properties line in
  let '(section_indent, par_indent) :=
    if is_section line then (Some indent, None)
    else if par_indent st is None then (section_indent st, Some indent)
    else (section_indent st, par_indent st) in
  '(add_text, environments, enum_indents) ←
    close_environments indent indent_size (length (environments st)) 0
      (reverse (environments st)) ("", environments st, enum_indents st);
  '(add_text, par_indent) ← paragraph_break indent par_indent add_text;
  let line := headings line in
  let '(environments, enum_indents) :=
    open_environment indent indent_size line environments enum_indents in
  line ← render indent enum_indents line;
  let line := add_text +:+ line in
  Ok (Tracker section_indent par_indent environments enum_indents, line +:+ nl).

Fixpoint convert_lines (indent_size : Z) (ignore_properties : list string)
    (st : tracker) (out : string) (lines : list string) : result (tracker * string) :=
  match lines with
  | [] => Ok (st, out)
  | line :: lines' =>
      '(st', text) ← process_line indent_size ignore_properties st line;
      convert_lines indent_size ignore_properties st' (out +:+ text) lines'
  end.

(** [convert_to_tex] on the text of the input file; the result is the text of
    the output file. *)
Definition convert_to_tex (content preamble : string) (indent_size : Z)
    (ignore_properties : list string) : result string :=
  let out := preamble +:+ "\begin{document}" in
  '(st, out) ← convert_lines indent_size ignore_properties initial out
                 (Py.readlines content);
  let out :=
    if bool_decide (environments st ≠ [])
    then out +:+ Py.join nl (map (λ '(_, env), end_command env)
                               (reverse (environments st)))
    else out in
  Ok (out +:+ nl +:+ "\end{document}").

Definition default_ignore : list string := ["tags"; "do"; "due"].
Definition default_preamble : string :=
  "\documentclass[12pt]{article}" +:+ nl +:+ "\usepackage{serina}" +:+ nl.

(** ** Vocabulary of the properties *)

(** The indent the loop body computes for a raw line. *)
Definition indent_of (line : string) : Z :=
  if match_indent line is Some (g, _) then Z.of_nat (String.length g) else 0.

(** The item indent a frame stands for, if it is a list. *)
Definition item_indent (indent_size : Z) (frame : Z * string) : option Z :=
  if is_list_env frame.2 then Some (frame.1 + indent_size) else None.

Definition item_indents (indent_size : Z) (frames : list (Z * string)) : list Z :=
  omap (item_indent indent_size) frames.

(** [indent] is [openIndent + indentSize] of an open list frame. *)
Definition is_item (indent_size : Z) (frames : list (Z * string)) (indent : Z) : Prop :=
  ∃ frame, frame ∈ frames ∧ is_list_env frame.2 ∧ indent = frame.1 + indent_size.

(** The closing commands of [frames], in the order of the list. *)
Definition closing_text (frames : list (Z * string)) : string :=
  foldr (λ frame text, end_command frame.2 +:+ text) "" frames.

(** The stack is kept bottom first. *)
Definition increasing (frames : list (Z * string)) : Prop :=
  StronglySorted (λ f g, f.1 < g.1) frames.

Definition nondecreasing (frames : list (Z * string)) : Prop :=
  StronglySorted (λ f g, f.1 ≤ g.1) frames.

(** The invariant of the loop: one item indent per open list frame, and open
    indents that grow towards the top of the stack. *)
Record consistent (indent_size : Z) (st : tracker) : Prop := {
  consistent_items : enum_indents st ≡ₚ item_indents indent_size (environments st);
  consistent_order : increasing (environments st)
}.

(** The states the loop goes through. *)
Inductive reachable (indent_size : Z) (ignore_properties : list string)
    : tracker → Prop :=
| reachable_initial : reachable indent_size ignore_properties initial
| reachable_step st line st' text :
    reachable indent_size ignore_properties st →
    process_line indent_size ignore_properties st line = Ok (st', text) →
    reachable indent_size ignore_properties st'.

(** What the loop of [replace_markup_via] computes: every other chunk goes
    through [f], starting with the second. *)
Fixpoint wrap_odd (f : string → string) (chunks : list string) : list string :=
  match chunks with
  | c0 :: c1 :: rest => c0 :: f c1 :: wrap_odd f rest
  | _ => chunks
  end.


(** The three calls of lines 111 to 113. *)
Inductive markup_rule : string → (string → string) → Prop :=
| rule_emph : markup_rule "__" emph
| rule_textbf : markup_rule "**" textbf
| rule_hl : markup_rule "^^" hl.

Definition delimiter_char (a : ascii) : Prop :=
  a = "_"%char ∨ a = "*"%char ∨ a = "^"%char.

Definition pair (a b : ascii) : string := String a (String b "").

Definition first_char (s : string) : option ascii :=
  match s with String c _ => Some c | "" => None end.

Fixpoint last_char (s : string) : option ascii :=
  match s with
  | "" => None
  | String c "" => Some c
  | String _ s' => last_char s'
  end.

(** A wrapping command whose ends cannot form the pair [a b] with a
    neighbouring chunk. *)
Record wrapper_safe (a b : ascii) (pre post : string) : Prop := {
  pre_free : Py.contains (pair a b) pre = false;
  pre_first : first_char pre ≠ Some b;
  pre_last : last_char pre ≠ Some a;
  pre_nonempty : pre ≠ "";
  post_free : Py.contains (pair a b) post = false;
  post_first : first_char post ≠ Some b;
  post_last : last_char post ≠ Some a;
  post_nonempty : post ≠ ""
}.

(** The state after the line [\begin{itemize}] at indent 0, and after a line
    [\begin{enumerate}] at indent 4 below it, with the default indent size. *)
Definition st_itemize : tracker :=
  {| section_indent := None; par_indent := Some 0;
     environments := [(0, "itemize")]; enum_indents := [4] |}.

Definition st_nested : tracker :=
  {| section_indent := None; par_indent := Some 0;
     environments := [(0, "itemize"); (4, "enumerate")]; enum_indents := [4; 8] |}.

(** ** Vocabulary of the further properties *)

(** [n] spaces, and the strings all of whose characters are in a class. *)
Fixpoint spaces (n : nat) : string :=
  match n with
  | O => ""
  | S k => String " " (spaces k)
  end.

Fixpoint all_chars (p : ascii → bool) (s : string) : bool :=
  match s with
  | "" => true
  | String c s' => p c && all_chars p s'
  end.

(** The frame a line opens. *)
Definition opened_frame (ignore_properties : list string) (line : string)
    : option (Z * string) :=
  (λ e, (indent_of line, e)) <$> env_begin (clean ignore_properties line).

(** The text of a run of lines, each given as the frames it closes, bottom
    first, and the rest of what is written for it. *)
Fixpoint segments_text (segs : list (list (Z * string) * string)) : string :=
  match segs with
  | [] => ""
  | (closed, rest) :: segs' =>
      closing_text (reverse closed) +:+ rest +:+ segments_text segs'
  end.

(** Lines 128 and 129. *)
Definition final_closing (frames : list (Z * string)) : string :=
  if bool_decide (frames ≠ [])
  then Py.join nl (map (λ '(_, env), end_command env) (reverse frames))
  else "".

(** ** The command line

    [main] hands [convert_to_tex] what the parser returns.  The parser is
    given no [type] for [--indent-size]: the default is the integer 4, a
    value given on the command line stays a string. *)

Inductive pyval : Type :=
| PyInt (z : Z)
| PyStr (s : string).

(** [ind + indent_size] for an integer [ind]. *)
Definition py_add (ind : Z) (indent_size : pyval) : result Z :=
  match indent_size with
  | PyInt z => Ok (ind + z)
  | PyStr _ => Raise TypeError
  end.

(** Lines 77 to 86 again, for an indent size as the parser returns it. *)
Fixpoint close_environments_v (indent : Z) (indent_size : pyval) (length i : nat)
    (snapshot : list (Z * string)) (acc : string * list (Z * string) * list Z)
    : result (string * list (Z * string) * list Z) :=
  match snapshot with
  | [] => Ok acc
  | (ind, env) :: snapshot' =>
      let '(add_text, environments, enum_indents) := acc in
      if bool_decide (indent ≤ ind) then
        let add_text := add_text +:+ end_command env in
        environments ← Py.pop environments (length - i - 1);
        enum_indents ←
          (if is_list_env env
           then item ← py_add ind indent_size; Py.remove item enum_indents
           else Ok enum_indents);
        close_environments_v indent indent_size length (S i) snapshot'
          (add_text, environments, enum_indents)
      else Ok acc
  end.

(** Lines 98 to 103 again. *)
Definition open_environment_v (indent : Z) (indent_size : pyval) (line : string)
    (environments : list (Z * string)) (enum_indents : list Z)
    : result (list (Z * string) * list Z) :=
  match env_begin line with
  | Some environment =>
      let environments := environments ++ [(indent, environment)] in
      if is_list_env environment
      then item ← py_add indent indent_size;
           Ok (environments, enum_indents ++ [item])
      else Ok (environments, enum_indents)
  | None => Ok (environments, enum_indents)
  end.

Definition process_line_v (indent_size : pyval) (ignore_properties : list string)
    (st : tracker) (line : string) : result (tracker * string) :=
  indent ← (if match_indent line is Some (g, _)
            then Ok (Z.of_nat (String.length g)) else Raise AttributeError);
  let line := clean ignore_properties line in
  let '(section_indent, par_indent) :=
    if is_section line then (Some indent, None)
    else if par_indent st is None then (section_indent st, Some indent)
    else (section_indent st, par_indent st) in
  '(add_text, environments, enum_indents) ←
    close_environments_v indent indent_size (length (environments st)) 0
      (reverse (environments st)) ("", environments st, enum_indents st);
  '(add_text, par_indent) ← paragraph_break indent par_indent add_text;
  let line := headings line in
  '(environments, enum_indents) ←
    open_environment_v indent indent_size line environments enum_indents;
  line ← render indent enum_indents line;
  let line := add_text +:+ line in
  Ok (Tracker section_indent par_indent environments enum_indents, line +:+ nl).

Fixpoint convert_lines_v (indent_size : pyval) (ignore_properties : list string)
    (st : tracker) (out : string) (lines : list string) : result (tracker * string) :=
  match lines with
  | [] => Ok (st, out)
  | line :: lines' =>
      '(st', text) ← process_line_v indent_size ignore_properties st line;
      convert_lines_v indent_size ignore_properties st' (out +:+ text) lines'
  end.

Definition convert_to_tex_v (content preamble : string) (indent_size : pyval)
    (ignore_properties : list string) : result string :=
  let out := preamble +:+ "\begin{document}" in
  '(st, out) ← convert_lines_v indent_size ignore_properties initial out
                 (Py.readlines content);
  let out :=
    if bool_decide (environments st ≠ [])
    then out +:+ Py.join nl (map (λ '(_, env), end_command env)
                               (reverse (environments st)))
    else out in
  Ok (out +:+ nl +:+ "\end{document}").

(** [p.rfind(c)], from position [i] on: the last position of [c], or -1. *)
Fixpoint rfind_from (c : ascii) (p : string) (i : Z) : Z :=
  match p with
  | "" => -1
  | String x p' =>
      let later := rfind_from c p' (i + 1) in
      if bool_decide (0 ≤ later) then later
      else if Ascii.eqb x c then i else -1
  end.

Definition rfind (c : ascii) (p : string) : Z := rfind_from c p 0.

(** [p[:n]] and [p[n:]] for [0 <= n]. *)
Fixpoint take_str (n : nat) (p : string) : string :=
  match n, p with
  | S k, String c p' => String c (take_str k p')
  | _, _ => ""
  end.

Fixpoint drop_str (n : nat) (p : string) : string :=
  match n, p with
  | S k, String _ p' => drop_str k p'
  | _, _ => p
  end.

(** The loop of [genericpath._splitext] that passes over the dots at the head
    of the file name: whether a character other than a dot stands at one of
    the [count] positions from [filenameIndex] on. *)
Fixpoint name_before_dot (p : string) (filenameIndex count : nat) : bool :=
  match count with
  | O => false
  | S k =>
      if bool_decide (String.get filenameIndex p ≠ Some "."%char) then true
      else name_before_dot p (S filenameIndex) k
  end.

(** [os.path.splitext] of [posixpath]. *)
Definition splitext (p : string) : string * string :=
  let sepIndex := rfind "/" p in
  let dotIndex := rfind "." p in
  if bool_decide (sepIndex < dotIndex)
     && name_before_dot p (Z.to_nat (sepIndex + 1)) (Z.to_nat (dotIndex - (sepIndex + 1)))
  then (take_str (Z.to_nat dotIndex) p, drop_str (Z.to_nat dotIndex) p)
  else (p, "").

(** What [parser.parse_args()] returns. *)
Record arguments : Type := ParsedArguments {
  infile : string;
  outfile : option string;
  indent_size_arg : option string;
  preamble_arg : option string
}.

(** The arguments of the call of [convert_to_tex] at line 154. *)
Record call : Type := Call {
  call_infile : string;
  call_outfile : string;
  call_preamble : string;
  call_indent_size : pyval;
  call_ignore : list string
}.

(** [main], from the parsed arguments to the call of line 154. *)
Definition main (args : arguments) : call :=
  let infile_name := infile args in
  let outfile_name :=
    if outfile args is Some name then name
    else (splitext infile_name).1 +:+ ".tex" in
  let indent_size := if indent_size_arg args is Some s then PyStr s else PyInt 4 in
  let preamble := default default_preamble (preamble_arg args) in
  let ignore_properties := default_ignore in
  Call infile_name outfile_name preamble indent_size ignore_properties.

(** What the call writes to the output file, given the text [content] that
    the loop of line 54 reads from the input file.  That text is not always
    the text the input file held before the run: line 43 opens the output
    file for writing before the first line is read, which empties the input
    file when both names denote the same file. *)
Definition call_result (c : call) (content : string) : result string :=
  convert_to_tex_v content (call_preamble c) (call_indent_size c) (call_ignore c).

(** The pattern of line 119 with its replacement. *)
Definition href_matcher (s : string) : option (string * string) :=
  '(g1, (g2, tail)) ←
    Re.lit "[" (Re.lazy_star Re.dot
      (Re.lit "](" (Re.greedy_star Re.dot (Re.lit ")" Re.rest)))) s;
  Some ("\href{" +:+ g2 +:+ "}{" +:+ g1 +:+ "}", tail).

(** The line begins an [itemize] or an [enumerate]. *)
Definition opens_list (ignore_properties : list string) (line : string) : bool :=
  if env_begin (clean ignore_properties line) is Some e then is_list_env e else false.

(** No list environment is open. *)
Record listless (st : tracker) : Prop := {
  listless_frames : Forall (λ f, is_list_env f.2 = false) (environments st);
  listless_items : enum_indents st = [];
  listless_order : increasing (environments st)
}.

(** ** Strings *)

Section strings.
Implicit Types (s t u p d : string) (c : ascii).

Lemma sapp_cons c s t : String c s +:+ t = String c (s +:+ t).
Proof. reflexivity. Qed.

Lemma sapp_nil_l s : "" +:+ s = s.
Proof. reflexivity. Qed.

Lemma sapp_nil_r s : s +:+ "" = s.
Proof. induction s as [|c s IH]; [done|]. by rewrite sapp_cons, IH. Qed.

Lemma sapp_assoc s t u : (s +:+ t) +:+ u = s +:+ t +:+ u.
Proof. induction s as [|c s IH]; [done|]. by rewrite !sapp_cons, IH. Qed.

Lemma sapp_length s t :
  String.length (s +:+ t) = (String.length s + String.length t)%nat.
Proof. induction s as [|c s IH]; [done|]. rewrite sapp_cons. simpl. by rewrite IH. Qed.

Lemma strip_prefix_app p s : Py.strip_prefix p (p +:+ s) = Some s.
Proof.
  induction p as [|a p IH]; [done|].
  rewrite sapp_cons. simpl. by rewrite Ascii.eqb_refl.
Qed.

Lemma strip_prefix_Some p s t : Py.strip_prefix p s = Some t ↔ s = p +:+ t.
Proof.
  split; [|intros ->; apply strip_prefix_app].
  revert s. induction p as [|a p IH]; intros s; simpl.
  - by intros [= ->].
  - destruct s as [|b s]; [done|].
    destruct (Ascii.eqb_spec a b) as [->|]; [|done].
    intros ->%IH. done.
Qed.

Lemma startswith_true s p : Py.startswith s p = true ↔ ∃ t, s = p +:+ t.
Proof.
  unfold Py.startswith. destruct (Py.strip_prefix p s) as [t|] eqn:E.
  - apply strip_prefix_Some in E. naive_solver.
  - split; [done|]. intros [t ->]. by rewrite strip_prefix_app in E.
Qed.

Lemma startswith_app s p t : Py.startswith s p = true → Py.startswith (s +:+ t) p = true.
Proof.
  rewrite !startswith_true. intros [u ->]. exists (u +:+ t). by rewrite sapp_assoc.
Qed.

End strings.

(** ** [str.split] *)

Lemma split_scan_skip d p rest :
  Py.split_scan d (String.length p) (p +:+ rest) = Py.split_scan d 0 rest.
Proof.
  induction p as [|c p IH]; [done|].
  rewrite sapp_cons. cbn [String.length Py.split_scan]. done.
Qed.

Lemma split_scan_delim d rest :
  d ≠ "" → Py.split_scan d 0 (d +:+ rest) = "" :: Py.split_scan d 0 rest.
Proof.
  destruct d as [|a d']; [done|]. intros _.
  rewrite sapp_cons. cbn [Py.split_scan].
  assert (Py.startswith (String a (d' +:+ rest)) (String a d') = true) as ->.
  { apply startswith_true. by exists rest. }
  cbn [String.length pred]. by rewrite split_scan_skip.
Qed.

Section split.
Variable d : string.
Hypothesis d_nonempty : d ≠ "".

Lemma split_scan_char c rest :
  Py.startswith (String c rest) d = false →
  Py.split_scan d 0 (String c rest) = Py.push_char c (Py.split_scan d 0 rest).
Proof. intros H. cbn [Py.split_scan]. by rewrite H. Qed.

(** Induction along the scan. *)
Lemma split_scan_ind (P : string → list string → Prop) :
  P "" [""] →
  (∀ rest, P rest (Py.split_scan d 0 rest) →
           P (d +:+ rest) ("" :: Py.split_scan d 0 rest)) →
  (∀ c rest, Py.startswith (String c rest) d = false →
             P rest (Py.split_scan d 0 rest) →
             P (String c rest) (Py.push_char c (Py.split_scan d 0 rest))) →
  ∀ text, P text (Py.split_scan d 0 text).
Proof using d_nonempty.
  intros Hnil Hdelim Hchar text.
  remember (String.length text) as n eqn:Hn. revert text Hn.
  induction n as [n IH] using lt_wf_ind. intros text ->.
  destruct text as [|c rest]; [done|].
  destruct (Py.startswith (String c rest) d) eqn:E.
  - apply startswith_true in E as [t E]. rewrite E, split_scan_delim by done.
    apply Hdelim, (IH (String.length t)); [|done].
    rewrite E, sapp_length. destruct d; [done|]. simpl. lia.
  - rewrite split_scan_char by done. apply Hchar; [done|].
    apply (IH (String.length rest)); [simpl; lia|done].
Qed.

Lemma split_scan_nonempty text : Py.split_scan d 0 text ≠ [].
Proof using d_nonempty.
  apply (split_scan_ind (λ _ l, l ≠ [])); [done..|].
  intros c rest _ H. by destruct (Py.split_scan d 0 rest).
Qed.

Lemma join_cons sep c cs : cs ≠ [] → Py.join sep (c :: cs) = c +:+ sep +:+ Py.join sep cs.
Proof. by destruct cs. Qed.

Lemma join_push_char sep c cs : cs ≠ [] →
  Py.join sep (Py.push_char c cs) = String c (Py.join sep cs).
Proof. destruct cs as [|h [|h' t]]; done. Qed.

(** Joining the chunks with the delimiter gives the text back. *)
Lemma join_split_scan text : Py.join d (Py.split_scan d 0 text) = text.
Proof using d_nonempty.
  apply (split_scan_ind (λ text l, l ≠ [] ∧ Py.join d l = text)).
  - done.
  - intros rest [Hne IH]. split; [done|]. by rewrite join_cons, IH.
  - intros c rest _ [Hne IH]. split.
    + by destruct (Py.split_scan d 0 rest).
    + by rewrite join_push_char, IH.
Qed.
End split.

Section contains.
Implicit Types (s t x y d : string) (a b c : ascii).

Lemma contains_nil d : d ≠ "" → Py.contains d "" = false.
Proof. by destruct d. Qed.

Lemma contains_cons d c s :
  Py.contains d (String c s) = Py.startswith (String c s) d || Py.contains d s.
Proof. done. Qed.

Lemma startswith_pair a b c s :
  Py.startswith (String c s) (pair a b)
  = Ascii.eqb a c && bool_decide (first_char s = Some b).
Proof.
  unfold Py.startswith, pair. simpl.
  destruct (Ascii.eqb a c); [|done]. destruct s as [|c' s]; simpl; [done|].
  destruct (Ascii.eqb_spec b c') as [->|Hne].
  - by rewrite bool_decide_eq_true_2.
  - rewrite bool_decide_eq_false_2; [done|]. congruence.
Qed.

Lemma first_char_app s t : s ≠ "" → first_char (s +:+ t) = first_char s.
Proof. by destruct s. Qed.

(** An occurrence of a two-character string in [x +:+ y] lies in [x], in
    [y], or across the seam. *)
Lemma contains_pair_app a b x y :
  Py.contains (pair a b) (x +:+ y)
  = Py.contains (pair a b) x || Py.contains (pair a b) y
    || bool_decide (last_char x = Some a) && bool_decide (first_char y = Some b).
Proof.
  induction x as [|c x IH].
  - rewrite sapp_nil_l, contains_nil by done.
    rewrite (bool_decide_eq_false_2 (last_char "" = Some a)) by done.
    simpl. by rewrite orb_false_r.
  - rewrite sapp_cons, !contains_cons, IH, !startswith_pair.
    destruct x as [|c' x].
    + rewrite sapp_nil_l, contains_nil by done. simpl.
      destruct (Ascii.eqb_spec a c) as [->|Hne].
      * rewrite (bool_decide_eq_true_2 (Some c = Some c)) by done.
        by destruct (bool_decide (first_char y = Some b)),
             (Py.contains (pair c b) y).
      * rewrite (bool_decide_eq_false_2 (Some c = Some a)) by congruence.
        by destruct (Py.contains (pair a b) y).
    + rewrite first_char_app by done.
      change (last_char (String c (String c' x))) with (last_char (String c' x)).
      by rewrite !orb_assoc.
Qed.

Lemma contains_pair_app_false a b x y :
  Py.contains (pair a b) x = false → Py.contains (pair a b) y = false →
  last_char x ≠ Some a ∨ first_char y ≠ Some b →
  Py.contains (pair a b) (x +:+ y) = false.
Proof.
  intros Hx Hy Hseam. rewrite contains_pair_app, Hx, Hy. simpl.
  destruct Hseam as [H|H].
  - by rewrite (bool_decide_eq_false_2 _ H).
  - by rewrite (bool_decide_eq_false_2 _ H), andb_false_r.
Qed.

Lemma contains_pair_app_inv a b x y :
  Py.contains (pair a b) (x +:+ y) = false →
  Py.contains (pair a b) x = false ∧ Py.contains (pair a b) y = false.
Proof.
  rewrite contains_pair_app. intros H.
  apply orb_false_elim in H as [H _]. by apply orb_false_elim in H.
Qed.
End contains.

Section chunks.
Variable d : string.
Hypothesis d_nonempty : d ≠ "".

Lemma split_scan_head_prefix text :
  ∃ h t u, Py.split_scan d 0 text = h :: t ∧ text = h +:+ u.
Proof using d_nonempty.
  pose proof (join_split_scan d d_nonempty text) as Hj.
  destruct (Py.split_scan d 0 text) as [|h [|h' t]] eqn:E.
  - by apply split_scan_nonempty in E.
  - exists h, [], "". simpl in Hj. by rewrite sapp_nil_r.
  - exists h, (h' :: t), (d +:+ Py.join d (h' :: t)). done.
Qed.

(** No chunk contains the delimiter. *)
Lemma split_scan_chunks text :
  Forall (λ chunk, Py.contains d chunk = false) (Py.split_scan d 0 text).
Proof using d_nonempty.
  apply (split_scan_ind d d_nonempty
           (λ text l, Forall (λ chunk, Py.contains d chunk = false) l)).
  - constructor; [|done]. by apply contains_nil.
  - intros rest IH. constructor; [|done]. by apply contains_nil.
  - intros c rest E IH.
    destruct (split_scan_head_prefix rest) as (h & t & u & Hs & Hr).
    rewrite Hs in IH |- *. simpl. inversion_clear IH as [|?? Hh Ht].
    constructor; [|done]. rewrite contains_cons, Hh, orb_false_r.
    destruct (Py.startswith (String c h) d) eqn:E'; [|done].
    apply (startswith_app _ _ u) in E'. rewrite sapp_cons, <-Hr in E'. congruence.
Qed.
End chunks.

(** ** The loop of [replace_markup_via] *)

Lemma list_pair_ind {A} (P : list A → Prop) :
  P [] → (∀ x, P [x]) → (∀ x y l, P l → P (x :: y :: l)) → ∀ l, P l.
Proof.
  intros H0 H1 H2. fix IH 1.
  intros [|x [|y l]]; [apply H0|apply H1|apply H2, IH].
Qed.

Lemma range_odd n : Py.range 1 n 2 = Py.range_from 1 2 (n `div` 2).
Proof.
  unfold Py.range. f_equal. destruct n as [|n]; [done|].
  f_equal. lia.
Qed.

Lemma markup_body_step f pre x y l :
  markup_body f (pre ++ x :: y :: l) (length pre + 1) = Ok (pre ++ x :: f y :: l).
Proof.
  unfold markup_body, Py.getitem.
  rewrite lookup_app_r by lia.
  replace (length pre + 1 - length pre)%nat with 1%nat by lia.
  cbn [lookup list_lookup mbind result_bind].
  rewrite insert_app_r_alt by lia.
  by replace (length pre + 1 - length pre)%nat with 1%nat by lia.
Qed.

Lemma markup_loop f suf : ∀ pre,
  for_each (markup_body f)
    (Py.range_from (length pre + 1) 2 (length suf `div` 2)) (pre ++ suf)
  = Ok (pre ++ wrap_odd f suf).
Proof.
  induction suf as [|x|x y l IH] using list_pair_ind; intros pre; [done..|].
  replace (length (x :: y :: l) `div` 2)%nat with (S (length l `div` 2)).
  2:{ cbn [length]. change (S (S (length l))) with (2 + length l)%nat.
      rewrite (Nat.add_comm 2), (Nat.div_add _ 1 2) by done. lia. }
  cbn [Py.range_from for_each]. rewrite markup_body_step. cbn [mbind result_bind].
  specialize (IH (pre ++ [x; f y])).
  rewrite length_app in IH. cbn [length] in IH.
  replace (length pre + 1 + 2)%nat with (length pre + 2 + 1)%nat by lia.
  rewrite <-!(assoc_L (++)) in IH. cbn [app] in IH. done.
Qed.

Lemma replace_markup_via_spec text d f :
  d ≠ "" →
  replace_markup_via text d f = Ok (Py.join "" (wrap_odd f (Py.split_scan d 0 text))).
Proof.
  intros Hd. unfold replace_markup_via, Py.split.
  destruct d as [|a d]; [done|]. cbn [mbind result_bind].
  rewrite range_odd.
  pose proof (markup_loop f (Py.split_scan (String a d) 0 text) []) as H.
  cbn [length app Nat.add] in H. by rewrite H.
Qed.

Lemma join_empty_cons c cs : Py.join "" (c :: cs) = c +:+ Py.join "" cs.
Proof. destruct cs; [by rewrite sapp_nil_r|done]. Qed.



Lemma wrap_odd_free a b pre post chunks :
  wrapper_safe a b pre post →
  Forall (λ chunk, Py.contains (pair a b) chunk = false) chunks →
  Py.contains (pair a b) (Py.join "" (wrap_odd (λ t, pre +:+ t +:+ post) chunks)) = false.
Proof.
  intros [].
  induction chunks as [|x|x y l IH] using list_pair_ind; intros Hall.
  - done.
  - by inversion_clear Hall.
  - inversion_clear Hall as [|?? Hx Hall']. inversion_clear Hall' as [|?? Hy Hl].
    cbn [wrap_odd]. rewrite !join_empty_cons, !sapp_assoc.
    apply contains_pair_app_false; [done| |right; by rewrite first_char_app].
    apply contains_pair_app_false; [done| |by left].
    apply contains_pair_app_false; [done| |right; by rewrite first_char_app].
    apply contains_pair_app_false; [done|by apply IH|by left].
Qed.

(** The chunks of a text without the pair [a b] are without it, whatever the
    delimiter that separates them. *)
Lemma join_free_inv a b sep chunks :
  Py.contains (pair a b) (Py.join sep chunks) = false →
  Forall (λ chunk, Py.contains (pair a b) chunk = false) chunks.
Proof.
  induction chunks as [|c cs IH]; [done|]. destruct cs as [|c' cs].
  - simpl. by constructor.
  - rewrite join_cons by done. intros [Hc H]%contains_pair_app_inv.
    apply contains_pair_app_inv in H as [_ H]. constructor; auto.
Qed.

(** ** The structure tracker *)

Lemma greedy_star_rest_total p s : ∃ g t, Re.greedy_star p Re.rest s = Some (g, t).
Proof.
  induction s as [|c s (g & t & IH)]; simpl; [by eauto|].
  destruct (p c); [|by eauto]. rewrite IH. eauto.
Qed.

Lemma match_indent_indent_of line :
  ∃ g t, match_indent line = Some (g, t) ∧ indent_of line = Z.of_nat (String.length g).
Proof.
  unfold indent_of.
  destruct (greedy_star_rest_total (Re.is_char " ") line) as (g & t & H).
  unfold match_indent. rewrite H. eauto.
Qed.

Lemma remove_Permutation x l :
  x ∈ l → ∃ l', Py.remove x l = Ok l' ∧ l ≡ₚ x :: l'.
Proof.
  induction l as [|y l IH]; [by intros ?%elem_of_nil|].
  intros Hin. simpl. destruct (decide (x = y)) as [->|Hne]; [by eauto|].
  apply elem_of_cons in Hin as [?|Hin]; [done|].
  destruct (IH Hin) as (l' & -> & Hp). eexists. split; [done|].
  rewrite Hp. apply Permutation_swap.
Qed.

Section closing.
Variables indent indent_size : Z.

(** The loop, started anywhere in the reversed copy: it closes the frames
    down to the first one that is opened left of [indent]. *)
Lemma close_environments_from snapshot : ∀ i text enums,
  enums ≡ₚ item_indents indent_size (reverse snapshot) →
  ∃ closed keep enums',
    snapshot = closed ++ keep ∧
    Forall (λ f, indent ≤ f.1) closed ∧
    (∀ f, head keep = Some f → f.1 < indent) ∧
    close_environments indent indent_size (length snapshot + i) i snapshot
      (text, reverse snapshot, enums)
    = Ok (text +:+ closing_text closed, reverse keep, enums') ∧
    enums' ≡ₚ item_indents indent_size (reverse keep).
Proof.
  induction snapshot as [|[ind env] snapshot IH]; intros i text enums Henums.
  { exists [], [], enums. simpl. rewrite sapp_nil_r. done. }
  cbn [close_environments]. case_bool_decide as Hle.
  2:{ exists [], ((ind, env) :: snapshot), enums. simpl.
      rewrite sapp_nil_r. split_and!; [done|done| |done|done].
      intros f [= <-]. simpl. lia. }
  unfold Py.pop. rewrite reverse_cons, length_app, length_reverse. cbn [length].
  rewrite decide_True by lia.
  replace (S (length snapshot) + i - i - 1)%nat with (length (reverse snapshot))
    by (rewrite length_reverse; lia).
  rewrite delete_middle, app_nil_r. cbn [mbind result_bind].
  rewrite reverse_cons in Henums. unfold item_indents in Henums.
  rewrite omap_app in Henums. cbn [omap list_omap] in Henums.
  unfold item_indent at 2 in Henums. cbn [fst snd] in Henums.
  assert (∃ enums1,
    (if is_list_env env then Py.remove (ind + indent_size) enums else Ok enums)
    = Ok enums1 ∧ enums1 ≡ₚ item_indents indent_size (reverse snapshot))
    as (enums1 & -> & Henums1).
  { destruct (is_list_env env).
    - destruct (remove_Permutation (ind + indent_size) enums) as (l' & -> & Hp).
      { rewrite Henums. apply elem_of_app. right. by apply list_elem_of_singleton. }
      exists l'. split; [done|].
      rewrite Hp in Henums. rewrite <-Permutation_cons_append in Henums.
      by apply (inj (cons _)) in Henums.
    - exists enums. by rewrite app_nil_r in Henums. }
  cbn [mbind result_bind].
  destruct (IH (S i) (text +:+ end_command env) enums1 Henums1)
    as (closed & keep & enums' & -> & Hclosed & Hkeep & Hrun & Henums').
  exists ((ind, env) :: closed), keep, enums'.
  split_and!; [done|by constructor|done| |done].
  replace (S (length (closed ++ keep)) + i)%nat
    with (length (closed ++ keep) + S i)%nat by lia.
  rewrite Hrun. by rewrite sapp_assoc.
Qed.

Lemma close_environments_spec envs enums :
  enums ≡ₚ item_indents indent_size envs →
  increasing envs →
  ∃ keep closed enums',
    envs = keep ++ closed ∧
    Forall (λ f, f.1 < indent) keep ∧
    Forall (λ f, indent ≤ f.1) closed ∧
    close_environments indent indent_size (length envs) 0 (reverse envs)
      ("", envs, enums)
    = Ok (closing_text (reverse closed), keep, enums') ∧
    enums' ≡ₚ item_indents indent_size keep.
Proof.
  intros Henums Hsorted.
  destruct (close_environments_from (reverse envs) 0 "" enums)
    as (closed & keep & enums' & Hsplit & Hclosed & Hkeep & Hrun & Henums').
  { by rewrite reverse_involutive. }
  rewrite reverse_involutive, length_reverse, Nat.add_0_r in Hrun.
  apply (f_equal reverse) in Hsplit.
  rewrite reverse_involutive, reverse_app in Hsplit.
  exists (reverse keep), (reverse closed), enums'.
  rewrite reverse_involutive.
  split_and!; [done| |by apply Forall_reverse|done|done].
  subst envs. apply StronglySorted_app_1_l in Hsorted.
  destruct keep as [|f keep]; [done|].
  rewrite reverse_cons in Hsorted |- *. apply Forall_app. split.
  - apply Forall_forall. intros g Hg.
    pose proof (StronglySorted_app_1_elem_of _ _ _ g f Hsorted Hg) as Hlt.
    specialize (Hkeep f eq_refl). simpl in Hlt.
    assert (f ∈ [f]) as Hf by apply list_elem_of_here. specialize (Hlt Hf). lia.
  - constructor; [|done]. by apply Hkeep.
Qed.
End closing.

Lemma inline_total line : ∃ text, inline line = Ok text.
Proof.
  unfold inline, markup. rewrite !replace_markup_via_spec by done.
  cbn [mbind result_bind]. rewrite replace_markup_via_spec by done.
  cbn [mbind result_bind]. rewrite replace_markup_via_spec by done.
  cbn [mbind result_bind]. eauto.
Qed.

Lemma render_total indent enums line : ∃ body, render indent enums line = Ok body.
Proof.
  unfold render. destruct (latex_eq line); [by eauto|].
  destruct (inline_total line) as [text ->]. cbn [mbind result_bind]. eauto.
Qed.

Lemma sub_heading_not_section marker command line :
  is_section line = false → sub_heading (String "#" marker) command line = line.
Proof.
  unfold is_section, sub_heading, Re.sub_anchored, Re.lit.
  destruct line as [|c line]; [done|]. cbn [Py.strip_prefix].
  by destruct (Ascii.eqb "#" c).
Qed.

Lemma headings_not_section line : is_section line = false → headings line = line.
Proof.
  intros H. unfold headings. cbv zeta.
  rewrite (sub_heading_not_section " " "\section" line H).
  rewrite (sub_heading_not_section "# " "\subsection" line H).
  apply (sub_heading_not_section "## " "\subsubsection" line H).
Qed.

Lemma item_indents_snoc indent_size frames frame :
  item_indents indent_size (frames ++ [frame])
  = item_indents indent_size frames ++ option_list (item_indent indent_size frame).
Proof.
  unfold item_indents. rewrite omap_app. f_equal.
Qed.

Section line.
Variables (indent_size : Z) (ignore_properties : list string).

Lemma open_environment_consistent indent line keep enums :
  enums ≡ₚ item_indents indent_size keep →
  increasing keep →
  Forall (λ f, f.1 < indent) keep →
  ∃ envs' enums',
    open_environment indent indent_size line keep enums = (envs', enums') ∧
    envs' = keep ++ (if env_begin line is Some e then [(indent, e)] else []) ∧
    enums' ≡ₚ item_indents indent_size envs' ∧
    increasing envs'.
Proof.
  intros Henums Hsorted Hkeep. unfold open_environment.
  destruct (env_begin line) as [e|].
  - eexists _, _. split_and!; [done..| |].
    + rewrite item_indents_snoc. unfold item_indent. simpl.
      destruct (is_list_env e); simpl; by rewrite Henums, ?app_nil_r.
    + apply StronglySorted_app_2; [|done|repeat constructor].
      intros f g Hf ->%list_elem_of_singleton. simpl.
      by apply (proj1 (Forall_forall _ _) Hkeep).
  - eexists _, _. by rewrite app_nil_r.
Qed.

(** What the loop body does with a line that is no heading, from a state
    whose item indents match its open frames. *)
Lemma process_line_spec st raw :
  consistent indent_size st →
  is_section (clean ignore_properties raw) = false →
  let indent := indent_of raw in
  let base := default indent (par_indent st) in
  ∃ keep closed st' body,
    environments st = keep ++ closed ∧
    Forall (λ f, f.1 < indent) keep ∧
    Forall (λ f, indent ≤ f.1) closed ∧
    process_line indent_size ignore_properties st raw
    = Ok (st', closing_text (reverse closed)
               +:+ (if bool_decide (indent ≤ base) then nl else "")
               +:+ body +:+ nl) ∧
    environments st'
    = keep ++ (if env_begin (clean ignore_properties raw) is Some e
               then [(indent, e)] else []) ∧
    par_indent st' = Some (if bool_decide (indent ≤ base) then indent else base) ∧
    section_indent st' = section_indent st ∧
    consistent indent_size st' ∧
    render indent (enum_indents st') (clean ignore_properties raw) = Ok body.
Proof.
  intros [Hitems Horder] Hsec indent base.
  destruct (match_indent_indent_of raw) as (g & t & Hm & Hi). fold indent in Hi.
  clearbody indent.
  destruct (close_environments_spec indent indent_size _ _ Hitems Horder)
    as (keep & closed & enums1 & Hsplit & Hkeep & Hclosed & Hrun & Henums1).
  assert (increasing keep) as Hsorted.
  { rewrite Hsplit in Horder. by apply StronglySorted_app_1_l in Horder. }
  destruct (open_environment_consistent indent (clean ignore_properties raw) keep enums1)
    as (envs2 & enums2 & Hopen & Henvs2 & Henums2 & Hsorted2); [done..|].
  destruct (render_total indent enums2 (clean ignore_properties raw)) as [body Hbody].
  exists keep, closed,
    (Tracker (section_indent st)
       (Some (if bool_decide (indent ≤ base) then indent else base)) envs2 enums2),
    body.
  split_and!; [done|done|done| |done|done|done|by split|done].
  unfold process_line. rewrite Hm. cbn [mbind result_bind].
  rewrite <-Hi. cbv zeta. rewrite Hsec, Hrun. cbn [mbind result_bind].
  rewrite headings_not_section by done.
  assert (paragraph_break indent
            (if par_indent st is None then (section_indent st, Some indent)
             else (section_indent st, par_indent st)).2
            (closing_text (reverse closed))
          = Ok (closing_text (reverse closed)
                  +:+ (if bool_decide (indent ≤ base) then nl else ""),
                Some (if bool_decide (indent ≤ base) then indent else base)))
    as Hbreak.
  { unfold base, paragraph_break. destruct (par_indent st) as [p|]; simpl;
      case_bool_decide; by rewrite ?sapp_nil_r. }
  destruct (par_indent st) as [p|]; simpl in Hbreak |- *;
    rewrite Hbreak; cbn [mbind result_bind];
    rewrite Hopen, Hbody; cbn [mbind result_bind];
    by rewrite !sapp_assoc.
Qed.

(** A heading line: the frames are closed, then the indent is compared with
    the baseline that has just been cleared. *)
Lemma process_line_heading st raw :
  consistent indent_size st →
  is_section (clean ignore_properties raw) = true →
  process_line indent_size ignore_properties st raw = Raise TypeError.
Proof.
  intros [Hitems Horder] Hsec.
  destruct (match_indent_indent_of raw) as (g & t & Hm & Hi).
  destruct (close_environments_spec (indent_of raw) indent_size _ _ Hitems Horder)
    as (keep & closed & enums1 & _ & _ & _ & Hrun & _).
  unfold process_line. rewrite Hm. cbn [mbind result_bind].
  rewrite <-Hi, Hsec, Hrun. done.
Qed.

Lemma process_line_consistent st raw st' text :
  consistent indent_size st →
  process_line indent_size ignore_properties st raw = Ok (st', text) →
  consistent indent_size st'.
Proof.
  intros Hst Hrun. destruct (is_section (clean ignore_properties raw)) eqn:Hsec.
  - by rewrite process_line_heading in Hrun.
  - destruct (process_line_spec st raw Hst Hsec)
      as (? & ? & st'' & ? & _ & _ & _ & Hrun' & _ & _ & _ & Hc & _).
    rewrite Hrun' in Hrun. by injection Hrun as <- _.
Qed.

Lemma initial_consistent : consistent indent_size initial.
Proof. split; [done|constructor]. Qed.

Lemma reachable_consistent st :
  reachable indent_size ignore_properties st → consistent indent_size st.
Proof.
  induction 1 as [|st line st' text _ IH Hrun];
    eauto using initial_consistent, process_line_consistent.
Qed.
End line.

(** ** Markup: what one replacement leaves behind *)

Lemma markup_rule_nonempty d f : markup_rule d f → d ≠ "".
Proof. by destruct 1. Qed.

Lemma markup_wrapper_safe a d f :
  delimiter_char a → markup_rule d f →
  ∃ pre post, f = (λ t, pre +:+ t +:+ post) ∧ wrapper_safe a a pre post.
Proof.
  intros Ha Hrule.
  destruct Hrule; eexists _, _; (split; [reflexivity|]);
    destruct Ha as [->|[->| ->]]; split; by vm_compute.
Qed.


(** One replacement leaves no delimiter of its own, and brings in none of the
    other two. *)
Lemma replace_markup_via_free a d f text :
  delimiter_char a → markup_rule d f →
  d = pair a a ∨ Py.contains (pair a a) text = false →
  ∃ r, replace_markup_via text d f = Ok r ∧ Py.contains (pair a a) r = false.
Proof.
  intros Ha Hrule Hfree.
  pose proof (markup_rule_nonempty _ _ Hrule) as Hd.
  destruct (markup_wrapper_safe a d f Ha Hrule) as (pre & post & -> & Hsafe).
  rewrite replace_markup_via_spec by done. eexists. split; [done|].
  apply wrap_odd_free; [done|]. destruct Hfree as [->|Hfree].
  - by apply split_scan_chunks.
  - apply (join_free_inv _ _ d). by rewrite join_split_scan.
Qed.

Lemma markup_free line :
  ∃ s, markup line = Ok s ∧
       Py.contains "__" s = false ∧ Py.contains "**" s = false ∧
       Py.contains "^^" s = false.
Proof.
  unfold markup.
  destruct (replace_markup_via_free "_" "__" emph line) as (s1 & -> & Hu1);
    [by left|constructor|by left|].
  cbn [mbind result_bind].
  destruct (replace_markup_via_free "_" "**" textbf s1) as (s2 & H2 & Hu2);
    [by left|constructor|by right|].
  destruct (replace_markup_via_free "*" "**" textbf s1) as (s2' & H2' & Hs2);
    [by right; left|constructor|by left|].
  rewrite H2 in H2' |- *. injection H2' as <-. cbn [mbind result_bind].
  destruct (replace_markup_via_free "_" "^^" hl s2) as (s3 & H3 & Hu3);
    [by left|constructor|by right|].
  destruct (replace_markup_via_free "*" "^^" hl s2) as (s3' & H3' & Hs3);
    [by right; left|constructor|by right|].
  destruct (replace_markup_via_free "^" "^^" hl s2) as (s3'' & H3'' & Hh3);
    [by right; right|constructor|by left|].
  rewrite H3 in H3', H3'' |- *. injection H3' as <-. injection H3'' as <-.
  eauto.
Qed.




(** ** Consequences of the invariant *)

Lemma increasing_nondecreasing frames : increasing frames → nondecreasing frames.
Proof.
  induction 1 as [|f frames _ IH Hall]; constructor; [done|].
  eapply Forall_impl; [done|]. simpl. lia.
Qed.

Lemma enum_indents_is_item indent_size st indent :
  consistent indent_size st →
  indent ∈ enum_indents st ↔ is_item indent_size (environments st) indent.
Proof.
  intros [Hitems _]. rewrite Hitems. unfold item_indents, is_item.
  split.
  - intros (f & Hf & H)%list_elem_of_omap. exists f. unfold item_indent in H.
    destruct (is_list_env f.2); naive_solver.
  - intros (f & Hf & Hlist & ->). apply list_elem_of_omap. exists f.
    split; [done|]. unfold item_indent. by destruct (is_list_env f.2).
Qed.

Lemma lazy_star_unfold {B} p (k : string → option B) s :
  Re.lazy_star p k s
  = match k s with
    | Some b => Some ("", b)
    | None =>
        match s with
        | String c s' =>
            if p c then '(g, b) ← Re.lazy_star p k s'; Some (String c g, b)
            else None
        | "" => None
        end
    end.
Proof. by destruct s. Qed.

Lemma latex_eq_matches content tail :
  Py.contains "$" content = false →
  tail = "" ∨ tail = nl →
  latex_eq ("$$" +:+ content +:+ "$$" +:+ tail) = Some content.
Proof.
  intros Hfree Htail. unfold latex_eq, Re.lit.
  rewrite strip_prefix_app. cbn [mbind option_bind].
  set (k := λ s : string, Py.strip_prefix "$$" s ≫= Re.eos).
  assert (k ("$$" +:+ tail) = Some tail) as Hk1.
  { unfold k. rewrite strip_prefix_app. cbn [mbind option_bind]. unfold Re.eos.
    by rewrite decide_True. }
  assert (∀ c s, Ascii.eqb "$" c = false → k (String c s) = None) as Hk2.
  { intros c s Hc. unfold k. cbn [Py.strip_prefix]. by rewrite Hc. }
  clearbody k.
  assert (Re.lazy_star (Re.not_char "$") k (content +:+ "$$" +:+ tail)
          = Some (content, tail)) as ->; [|done].
  induction content as [|c content IH]; rewrite lazy_star_unfold.
  - by rewrite sapp_nil_l, Hk1.
  - rewrite contains_cons in Hfree. apply orb_false_elim in Hfree as [Hc Hfree].
    unfold Py.startswith in Hc. cbn [Py.strip_prefix] in Hc.
    assert (Ascii.eqb "$" c = false) as Hc' by (by destruct (Ascii.eqb "$" c)).
    rewrite sapp_cons, Hk2 by done. unfold Re.not_char at 1. rewrite Hc'.
    cbn [negb]. by rewrite IH.
Qed.

Section documents.
Variables (indent_size : Z) (ignore_properties : list string).

Lemma clean_ignored raw p :
  p ∈ ignore_properties →
  Py.startswith (strip_bullet raw) (p +:+ "::") = true →
  clean ignore_properties raw = "".
Proof.
  intros Hp Hstarts. unfold clean. cbv zeta.
  assert (Py.startswith_any (strip_bullet raw)
            (map (λ s, s +:+ "::") ignore_properties) = true) as ->; [|done].
  apply existsb_exists. exists (p +:+ "::"). split; [|done].
  apply in_map_iff. exists p. split; [done|]. by apply list_elem_of_In.
Qed.

(** Lines that are no headings never raise. *)
Lemma convert_lines_total lines : ∀ st out,
  consistent indent_size st →
  Forall (λ line, is_section (clean ignore_properties line) = false) lines →
  ∃ st' out',
    convert_lines indent_size ignore_properties st out lines = Ok (st', out') ∧
    consistent indent_size st'.
Proof.
  induction lines as [|line lines IH]; intros st out Hst Hall; [by eauto|].
  inversion_clear Hall as [|?? Hline Hlines].
  destruct (process_line_spec indent_size ignore_properties st line Hst Hline)
    as (? & ? & st' & ? & _ & _ & _ & Hrun & _ & _ & _ & Hst' & _).
  cbn [convert_lines]. rewrite Hrun. cbn [mbind result_bind]. by apply IH.
Qed.

Lemma convert_lines_heading_from lines : ∀ st out,
  consistent indent_size st →
  Exists (λ line, is_section (clean ignore_properties line) = true) lines →
  convert_lines indent_size ignore_properties st out lines = Raise TypeError.
Proof.
  induction lines as [|line lines IH]; intros st out Hst Hex;
    [by apply Exists_nil in Hex|].
  cbn [convert_lines]. destruct (is_section (clean ignore_properties line)) eqn:Hline.
  - by rewrite process_line_heading.
  - destruct (process_line_spec indent_size ignore_properties st line Hst Hline)
      as (? & ? & st' & ? & _ & _ & _ & Hrun & _ & _ & _ & Hst' & _).
    rewrite Hrun. cbn [mbind result_bind]. apply IH; [done|].
    apply Exists_cons in Hex as [Hex|Hex]; [congruence|done].
Qed.

Lemma convert_to_tex_total content preamble :
  Forall (λ line, is_section (clean ignore_properties line) = false)
    (Py.readlines content) →
  ∃ out, convert_to_tex content preamble indent_size ignore_properties = Ok out.
Proof.
  intros Hall. unfold convert_to_tex.
  destruct (convert_lines_total (Py.readlines content) initial
              (preamble +:+ "\begin{document}") (initial_consistent _) Hall)
    as (st' & out' & -> & _).
  cbn [mbind result_bind]. eauto.
Qed.

End documents.

Lemma reachable_itemize : reachable 4 default_ignore st_itemize.
Proof.
  eapply (reachable_step _ _ initial ("\begin{itemize}" +:+ nl)).
  - constructor.
  - reflexivity.
Defined.

Lemma reachable_nested : reachable 4 default_ignore st_nested.
Proof.
  eapply (reachable_step _ _ st_itemize ("    \begin{enumerate}" +:+ nl)).
  - apply reachable_itemize.
  - reflexivity.
Defined.

(** ** The claims *)

(** C1, scenario 1, the document made of the lines [# Title] and
    [some text].  The claim expects the section command followed by the text
    line.  The script does not get that far: on the heading line the baseline
    is set to [None] and [indent <= par_indent] then compares an integer with
    it, so the conversion stops with a [TypeError]. *)
Theorem scenario_heading_raises :
  convert_to_tex ("# Title" +:+ nl +:+ "some text" +:+ nl) default_preamble 4
    default_ignore
  = Raise TypeError.
Proof. reflexivity. Qed.

(** C2, the conversion never raises.  It does on headings: from every state
    the loop can be in, a sequence of lines of which one is a heading ends in
    the [TypeError] of its first heading.  Lines that are no headings never
    raise, see [convert_lines_total] and [convert_to_tex_total]. *)
Theorem heading_stops_conversion indent_size ignore_properties st out lines :
  reachable indent_size ignore_properties st →
  Exists (λ line, is_section (clean ignore_properties line) = true) lines →
  convert_lines indent_size ignore_properties st out lines = Raise TypeError.
Proof.
  intros Hst%reachable_consistent. by apply convert_lines_heading_from.
Qed.

Lemma heading_stops_conversion_witness :
  reachable 4 default_ignore initial ∧
  Exists (λ line, is_section (clean default_ignore line) = true)
    ["some text" +:+ nl; "## Part" +:+ nl; "more" +:+ nl] ∧
  convert_lines 4 default_ignore initial ""
    ["some text" +:+ nl; "## Part" +:+ nl; "more" +:+ nl]
  = Raise TypeError.
Proof.
  assert (Exists (λ line, is_section (clean default_ignore line) = true)
            ["some text" +:+ nl; "## Part" +:+ nl; "more" +:+ nl]) as Hex.
  { apply Exists_cons_tl, Exists_cons_hd. reflexivity. }
  split; [constructor|]. split; [exact Hex|].
  apply (heading_stops_conversion 4 default_ignore initial ""); [constructor|exact Hex].
Defined.

(** C3, links in double brackets.  A link text of the shape of a citation key
    is replaced by a citation command, but the command holds the literal
    [link_text] where the claim expects the key: the string returned by
    [render_citation] lacks the [f] prefix the other format strings of the
    script have.  A text of another shape loses its brackets, as claimed. *)
Theorem citation_is_literal :
  citation_key "Smith99" = true ∧
  render_citation "Smith99" = "\cite{link_text}" ∧
  inline "[[Smith99]]" = Ok "\cite{link_text}" ∧
  inline "[[some phrase]]" = Ok "some phrase".
Proof. repeat split; reflexivity. Qed.

(** C4 fails as stated: the first line of a document sets the baseline and
    is given a blank line all the same. *)
Lemma baseline_line_breaks :
  par_indent initial = None ∧
  is_section (clean default_ignore ("some text" +:+ nl)) = false ∧
  ∃ st', process_line 4 default_ignore initial ("some text" +:+ nl)
         = Ok (st', nl +:+ "some text" +:+ nl +:+ nl) ∧
         par_indent st' = Some 0.
Proof. split; [done|]. split; [done|]. eexists. split; reflexivity. Qed.

(** C4, as amended.  When a line that is no heading arrives and the baseline
    is undefined, the baseline becomes the indent of the line and the blank
    line is written for that line too, the comparison being made after the
    assignment.  When the baseline is [p], the blank line is written exactly
    when the indent is at most [p], and the indent is then the new baseline.
    The text written for the line is the closing commands, the blank line if
    any, the rendered line and a line feed. *)
Theorem paragraph_baseline indent_size ignore_properties st raw :
  reachable indent_size ignore_properties st →
  is_section (clean ignore_properties raw) = false →
  ∃ keep closed st' body brk,
    environments st = keep ++ closed ∧
    Forall (λ f, f.1 < indent_of raw) keep ∧
    Forall (λ f, indent_of raw ≤ f.1) closed ∧
    render (indent_of raw) (enum_indents st') (clean ignore_properties raw)
    = Ok body ∧
    process_line indent_size ignore_properties st raw
    = Ok (st', closing_text (reverse closed) +:+ brk +:+ body +:+ nl) ∧
    match par_indent st with
    | None => brk = nl ∧ par_indent st' = Some (indent_of raw)
    | Some p =>
        (indent_of raw ≤ p → brk = nl ∧ par_indent st' = Some (indent_of raw)) ∧
        (p < indent_of raw → brk = "" ∧ par_indent st' = Some p)
    end.
Proof.
  intros Hst%reachable_consistent Hline.
  destruct (process_line_spec indent_size ignore_properties st raw Hst Hline)
    as (keep & closed & st' & body & Hsplit & Hkeep & Hclosed & Hrun & _ & Hpar
        & _ & _ & Hbody).
  exists keep, closed, st', body. eexists.
  split_and!; [done..|]. rewrite Hpar.
  destruct (par_indent st) as [p|]; simpl.
  - split; intros H.
    + by rewrite !bool_decide_eq_true_2.
    + rewrite !bool_decide_eq_false_2 by lia. done.
  - by rewrite !bool_decide_eq_true_2.
Qed.

Lemma paragraph_baseline_witness :
  reachable 4 default_ignore st_itemize ∧
  is_section (clean default_ignore ("    - one" +:+ nl)) = false ∧
  ∃ keep closed st' body brk,
    environments st_itemize = keep ++ closed ∧
    Forall (λ f, f.1 < indent_of ("    - one" +:+ nl)) keep ∧
    Forall (λ f, indent_of ("    - one" +:+ nl) ≤ f.1) closed ∧
    render (indent_of ("    - one" +:+ nl)) (enum_indents st')
      (clean default_ignore ("    - one" +:+ nl)) = Ok body ∧
    process_line 4 default_ignore st_itemize ("    - one" +:+ nl)
    = Ok (st', closing_text (reverse closed) +:+ brk +:+ body +:+ nl) ∧
    match par_indent st_itemize with
    | None => brk = nl ∧ par_indent st' = Some (indent_of ("    - one" +:+ nl))
    | Some p =>
        (indent_of ("    - one" +:+ nl) ≤ p →
         brk = nl ∧ par_indent st' = Some (indent_of ("    - one" +:+ nl))) ∧
        (p < indent_of ("    - one" +:+ nl) → brk = "" ∧ par_indent st' = Some p)
    end.
Proof.
  split; [apply reachable_itemize|]. split; [reflexivity|].
  apply (paragraph_baseline 4 default_ignore st_itemize ("    - one" +:+ nl));
    [apply reachable_itemize|reflexivity].
Defined.

(** C5.  In every state the loop can be in and for every incoming line, the
    stack splits into the frames opened left of the indent of the line and
    the frames above them, which all have an open indent at or right of it.
    The loop of lines 77 to 86 closes exactly the latter, from the top of the
    stack downwards, and stops there.  For a line that is no heading the
    closing commands are the first thing written for the line, top first,
    and after the line the stack is the kept frames, untouched, with the
    frame the line opens on top; the open indents never decrease from the
    bottom of the stack to its top, before the line and after it.  For a
    heading line the claim fails: the loop has closed the frames, but line 88
    then raises a [TypeError], so that no closing command is written and no
    stack is left for a next line.  It is the defect of C1 and C2. *)
Theorem frames_closed_in_order indent_size ignore_properties st raw :
  reachable indent_size ignore_properties st →
  ∃ keep closed enums',
    environments st = keep ++ closed ∧
    Forall (λ f, f.1 < indent_of raw) keep ∧
    Forall (λ f, indent_of raw ≤ f.1) closed ∧
    close_environments (indent_of raw) indent_size (length (environments st)) 0
      (reverse (environments st)) ("", environments st, enum_indents st)
    = Ok (closing_text (reverse closed), keep, enums') ∧
    nondecreasing (environments st) ∧
    if is_section (clean ignore_properties raw)
    then process_line indent_size ignore_properties st raw = Raise TypeError
    else
      ∃ st' body,
        process_line indent_size ignore_properties st raw
        = Ok (st', closing_text (reverse closed)
                   +:+ (if bool_decide (indent_of raw
                                        ≤ default (indent_of raw) (par_indent st))
                        then nl else "")
                   +:+ body +:+ nl) ∧
        render (indent_of raw) (enum_indents st') (clean ignore_properties raw) = Ok body ∧
        environments st'
        = keep ++ (if env_begin (clean ignore_properties raw) is Some e
                   then [(indent_of raw, e)] else []) ∧
        nondecreasing (environments st').
Proof.
  intros Hreach. pose proof (reachable_consistent _ _ _ Hreach) as Hst.
  pose proof Hst as [Hitems Horder].
  destruct (close_environments_spec (indent_of raw) indent_size _ _ Hitems Horder)
    as (keep & closed & enums' & Hsplit & Hkeep & Hclosed & Hrun & _).
  exists keep, closed, enums'.
  split_and!; [done..|by apply increasing_nondecreasing|].
  destruct (is_section (clean ignore_properties raw)) eqn:Hline.
  { by apply process_line_heading. }
  destruct (process_line_spec indent_size ignore_properties st raw Hst Hline)
    as (keep' & closed' & st' & body & Hsplit' & Hkeep' & Hclosed' & Hrun' & Henvs
        & _ & _ & [_ Horder'] & Hbody).
  assert (keep' = keep ∧ closed' = closed) as [-> ->].
  { clear -Hsplit Hsplit' Hkeep Hkeep' Hclosed Hclosed'.
    rewrite Hsplit' in Hsplit. clear Hsplit'.
    revert keep Hsplit Hkeep.
    induction Hkeep' as [|f keep' Hf _ IH]; intros [|g keep] Hsplit Hkeep.
    - done.
    - simpl in Hsplit. subst closed'. inversion_clear Hclosed'.
      inversion_clear Hkeep. lia.
    - simpl in Hsplit. subst closed. inversion_clear Hclosed. lia.
    - simpl in Hsplit. injection Hsplit as -> Hsplit.
      destruct (IH keep Hsplit) as [-> ->]; [by inversion_clear Hkeep|done]. }
  exists st', body. split_and!; [done..|by apply increasing_nondecreasing].
Qed.

Lemma frames_closed_in_order_witness :
  reachable 4 default_ignore st_nested ∧
  (∃ keep closed enums',
    environments st_nested = keep ++ closed ∧
    Forall (λ f, f.1 < indent_of ("  back" +:+ nl)) keep ∧
    Forall (λ f, indent_of ("  back" +:+ nl) ≤ f.1) closed ∧
    close_environments (indent_of ("  back" +:+ nl)) 4 (length (environments st_nested)) 0
      (reverse (environments st_nested)) ("", environments st_nested, enum_indents st_nested)
    = Ok (closing_text (reverse closed), keep, enums') ∧
    nondecreasing (environments st_nested) ∧
    if is_section (clean default_ignore ("  back" +:+ nl))
    then process_line 4 default_ignore st_nested ("  back" +:+ nl) = Raise TypeError
    else
      ∃ st' body,
        process_line 4 default_ignore st_nested ("  back" +:+ nl)
        = Ok (st', closing_text (reverse closed)
                   +:+ (if bool_decide (indent_of ("  back" +:+ nl)
                                        ≤ default (indent_of ("  back" +:+ nl)) (par_indent st_nested))
                        then nl else "")
                   +:+ body +:+ nl) ∧
        render (indent_of ("  back" +:+ nl)) (enum_indents st') (clean default_ignore ("  back" +:+ nl)) = Ok body ∧
        environments st'
        = keep ++ (if env_begin (clean default_ignore ("  back" +:+ nl)) is Some e
                   then [(indent_of ("  back" +:+ nl), e)] else []) ∧
        nondecreasing (environments st')) ∧
  (∃ keep closed enums',
    environments st_nested = keep ++ closed ∧
    Forall (λ f, f.1 < indent_of ("# Title" +:+ nl)) keep ∧
    Forall (λ f, indent_of ("# Title" +:+ nl) ≤ f.1) closed ∧
    close_environments (indent_of ("# Title" +:+ nl)) 4 (length (environments st_nested)) 0
      (reverse (environments st_nested)) ("", environments st_nested, enum_indents st_nested)
    = Ok (closing_text (reverse closed), keep, enums') ∧
    nondecreasing (environments st_nested) ∧
    if is_section (clean default_ignore ("# Title" +:+ nl))
    then process_line 4 default_ignore st_nested ("# Title" +:+ nl) = Raise TypeError
    else
      ∃ st' body,
        process_line 4 default_ignore st_nested ("# Title" +:+ nl)
        = Ok (st', closing_text (reverse closed)
                   +:+ (if bool_decide (indent_of ("# Title" +:+ nl)
                                        ≤ default (indent_of ("# Title" +:+ nl)) (par_indent st_nested))
                        then nl else "")
                   +:+ body +:+ nl) ∧
        render (indent_of ("# Title" +:+ nl)) (enum_indents st') (clean default_ignore ("# Title" +:+ nl)) = Ok body ∧
        environments st'
        = keep ++ (if env_begin (clean default_ignore ("# Title" +:+ nl)) is Some e
                   then [(indent_of ("# Title" +:+ nl), e)] else []) ∧
        nondecreasing (environments st')).
Proof.
  split; [apply reachable_nested|]. split.
  - apply (frames_closed_in_order 4 default_ignore st_nested ("  back" +:+ nl)).
    apply reachable_nested.
  - apply (frames_closed_in_order 4 default_ignore st_nested ("# Title" +:+ nl)).
    apply reachable_nested.
Defined.

(** C6 fails as stated: below an open [itemize] at indent 0, an equation
    line at indent 4 carries no item marker. *)
Lemma equation_at_item_indent_unmarked :
  reachable 4 default_ignore st_itemize ∧
  is_section (clean default_ignore ("    $$x$$" +:+ nl)) = false ∧
  ∃ st', process_line 4 default_ignore st_itemize ("    $$x$$" +:+ nl)
         = Ok (st', equation_block "x" +:+ nl) ∧
         is_item 4 (environments st') (indent_of ("    $$x$$" +:+ nl)) ∧
         Py.contains "\item" (equation_block "x" +:+ nl) = false.
Proof.
  split; [apply reachable_itemize|]. split; [done|]. eexists.
  split; [reflexivity|]. split; [|reflexivity].
  exists (0, "itemize"). split; [apply list_elem_of_here|]. done.
Qed.

(** C6, as amended.  A line that is neither a heading nor an equation block
    is prefixed with the item marker if and only if its indent is
    [openIndent + indentSize] of a list frame that is open once the line has
    closed and opened its frames; an equation block is never prefixed.  So a
    line at the item indent of a closed frame is marked only if another open
    list frame gives that indent. *)
Theorem item_marker indent_size ignore_properties st raw :
  reachable indent_size ignore_properties st →
  is_section (clean ignore_properties raw) = false →
  ∃ keep closed st' brk,
    environments st = keep ++ closed ∧
    Forall (λ f, f.1 < indent_of raw) keep ∧
    Forall (λ f, indent_of raw ≤ f.1) closed ∧
    brk = (if bool_decide (indent_of raw ≤ default (indent_of raw) (par_indent st))
           then nl else "") ∧
    environments st'
    = keep ++ (if env_begin (clean ignore_properties raw) is Some e
               then [(indent_of raw, e)] else []) ∧
    match latex_eq (clean ignore_properties raw) with
    | Some content =>
        process_line indent_size ignore_properties st raw
        = Ok (st', closing_text (reverse closed) +:+ brk
                   +:+ equation_block content +:+ nl)
    | None =>
        ∃ text, inline (clean ignore_properties raw) = Ok text ∧
          (is_item indent_size (environments st') (indent_of raw) ∧
           process_line indent_size ignore_properties st raw
           = Ok (st', closing_text (reverse closed) +:+ brk
                      +:+ ("\item " +:+ text) +:+ nl)
           ∨
           ¬ is_item indent_size (environments st') (indent_of raw) ∧
           process_line indent_size ignore_properties st raw
           = Ok (st', closing_text (reverse closed) +:+ brk +:+ text +:+ nl))
    end.
Proof.
  intros Hst%reachable_consistent Hline.
  destruct (process_line_spec indent_size ignore_properties st raw Hst Hline)
    as (keep & closed & st' & body & Hsplit & Hkeep & Hclosed & Hrun & Henvs & _
        & _ & Hst' & Hbody).
  exists keep, closed, st'. eexists. split_and!; [done..|].
  unfold render in Hbody. destruct (latex_eq (clean ignore_properties raw)) as [content|].
  { injection Hbody as <-. done. }
  destruct (inline_total (clean ignore_properties raw)) as [text Htext].
  rewrite Htext in Hbody. cbn [mbind result_bind] in Hbody. injection Hbody as <-.
  exists text. split; [done|].
  pose proof (enum_indents_is_item indent_size st' (indent_of raw) Hst') as Hitem.
  destruct (decide (indent_of raw ∈ enum_indents st')) as [Hin|Hin].
  - rewrite (bool_decide_eq_true_2 (indent_of raw ∈ enum_indents st')) in Hrun
      by done.
    left. split; [tauto|done].
  - rewrite (bool_decide_eq_false_2 (indent_of raw ∈ enum_indents st')) in Hrun
      by done.
    right. split; [tauto|done].
Qed.

Lemma item_marker_witness :
  reachable 4 default_ignore st_itemize ∧
  is_section (clean default_ignore ("    - one" +:+ nl)) = false ∧
  ∃ keep closed st' brk,
    environments st_itemize = keep ++ closed ∧
    Forall (λ f, f.1 < indent_of ("    - one" +:+ nl)) keep ∧
    Forall (λ f, indent_of ("    - one" +:+ nl) ≤ f.1) closed ∧
    brk = (if bool_decide (indent_of ("    - one" +:+ nl)
                           ≤ default (indent_of ("    - one" +:+ nl))
                               (par_indent st_itemize))
           then nl else "") ∧
    environments st'
    = keep ++ (if env_begin (clean default_ignore ("    - one" +:+ nl)) is Some e
               then [(indent_of ("    - one" +:+ nl), e)] else []) ∧
    match latex_eq (clean default_ignore ("    - one" +:+ nl)) with
    | Some content =>
        process_line 4 default_ignore st_itemize ("    - one" +:+ nl)
        = Ok (st', closing_text (reverse closed) +:+ brk
                   +:+ equation_block content +:+ nl)
    | None =>
        ∃ text, inline (clean default_ignore ("    - one" +:+ nl)) = Ok text ∧
          (is_item 4 (environments st') (indent_of ("    - one" +:+ nl)) ∧
           process_line 4 default_ignore st_itemize ("    - one" +:+ nl)
           = Ok (st', closing_text (reverse closed) +:+ brk
                      +:+ ("\item " +:+ text) +:+ nl)
           ∨
           ¬ is_item 4 (environments st') (indent_of ("    - one" +:+ nl)) ∧
           process_line 4 default_ignore st_itemize ("    - one" +:+ nl)
           = Ok (st', closing_text (reverse closed) +:+ brk +:+ text +:+ nl))
    end.
Proof.
  split; [apply reachable_itemize|]. split; [reflexivity|].
  apply (item_marker 4 default_ignore st_itemize ("    - one" +:+ nl));
    [apply reachable_itemize|reflexivity].
Defined.

(** C7 fails as stated: the text [a$b] between the outer markers holds no
    double dollar, yet the line is not made an equation block. *)
Lemma dollar_inside_not_equation :
  clean default_ignore ("$$a$b$$" +:+ nl) = "$$" +:+ "a$b" +:+ "$$" +:+ nl ∧
  Py.contains "$$" "a$b" = false ∧
  ∃ st', process_line 4 default_ignore initial ("$$a$b$$" +:+ nl)
         = Ok (st', nl +:+ "$a$b$" +:+ nl +:+ nl).
Proof. split; [done|]. split; [done|]. eexists. reflexivity. Qed.

(** C7, as amended.  A line whose cleaned text is [$$], a content without
    any dollar sign, and [$$], up to the line feed, is replaced by the
    equation environment around the content.  Nothing else is done to the
    content: no markup, no link and no item marker, whatever the content and
    the indent.  Only the closing commands and the blank line come before the
    block. *)
Theorem equation_line indent_size ignore_properties st raw content tail :
  reachable indent_size ignore_properties st →
  clean ignore_properties raw = "$$" +:+ content +:+ "$$" +:+ tail →
  tail = "" ∨ tail = nl →
  Py.contains "$" content = false →
  ∃ keep closed st' brk,
    environments st = keep ++ closed ∧
    Forall (λ f, f.1 < indent_of raw) keep ∧
    Forall (λ f, indent_of raw ≤ f.1) closed ∧
    brk = (if bool_decide (indent_of raw ≤ default (indent_of raw) (par_indent st))
           then nl else "") ∧
    environments st' = keep ∧
    process_line indent_size ignore_properties st raw
    = Ok (st', closing_text (reverse closed) +:+ brk
               +:+ equation_block content +:+ nl).
Proof.
  intros Hst%reachable_consistent Hclean Htail Hfree.
  assert (is_section (clean ignore_properties raw) = false) as Hline by (by rewrite Hclean).
  destruct (process_line_spec indent_size ignore_properties st raw Hst Hline)
    as (keep & closed & st' & body & Hsplit & Hkeep & Hclosed & Hrun & Henvs & _
        & _ & _ & Hbody).
  exists keep, closed, st'. eexists. split_and!; [done..| |].
  - rewrite Henvs, Hclean. change (env_begin _) with (@None string).
    by rewrite app_nil_r.
  - rewrite Hclean in Hbody. unfold render in Hbody.
    rewrite latex_eq_matches in Hbody by done. by injection Hbody as <-.
Qed.

Lemma equation_line_witness :
  reachable 4 default_ignore initial ∧
  clean default_ignore ("$$x^2 + y^2 = z^2$$" +:+ nl)
  = "$$" +:+ "x^2 + y^2 = z^2" +:+ "$$" +:+ nl ∧
  (nl = "" ∨ nl = nl) ∧
  Py.contains "$" "x^2 + y^2 = z^2" = false ∧
  ∃ keep closed st' brk,
    environments initial = keep ++ closed ∧
    Forall (λ f, f.1 < indent_of ("$$x^2 + y^2 = z^2$$" +:+ nl)) keep ∧
    Forall (λ f, indent_of ("$$x^2 + y^2 = z^2$$" +:+ nl) ≤ f.1) closed ∧
    brk = (if bool_decide (indent_of ("$$x^2 + y^2 = z^2$$" +:+ nl)
                           ≤ default (indent_of ("$$x^2 + y^2 = z^2$$" +:+ nl))
                               (par_indent initial))
           then nl else "") ∧
    environments st' = keep ∧
    process_line 4 default_ignore initial ("$$x^2 + y^2 = z^2$$" +:+ nl)
    = Ok (st', closing_text (reverse closed) +:+ brk
               +:+ equation_block "x^2 + y^2 = z^2" +:+ nl).
Proof.
  split; [constructor|]. split; [reflexivity|]. split; [by right|].
  split; [reflexivity|].
  apply (equation_line 4 default_ignore initial ("$$x^2 + y^2 = z^2$$" +:+ nl)
           "x^2 + y^2 = z^2" nl);
    [constructor|reflexivity|by right|reflexivity].
Defined.




(** C9 at the failing input: below an open [itemize] at indent 0, an
    ignored property line at indent 4 is written as an item marker, not as
    an empty line. *)
Lemma ignored_line_at_item_indent :
  reachable 4 default_ignore st_itemize ∧
  Py.startswith (strip_bullet ("    tags:: x" +:+ nl)) ("tags" +:+ "::") = true ∧
  ∃ st', process_line 4 default_ignore st_itemize ("    tags:: x" +:+ nl)
         = Ok (st', "\item " +:+ nl).
Proof. split; [apply reachable_itemize|]. split; [done|]. eexists. reflexivity. Qed.

(** C9.  A line whose text, after indentation and bullet, begins with an
    ignored property followed by [::] contributes no text of its own.  The
    frames at or right of its indent are closed and the blank line is
    written as for any line, as the claim says; then comes the line feed,
    which makes the empty line of the claim, unless the indent of the line
    is an item indent: there the claim fails, the item marker is written
    before the line feed.  The comment of line 59 says that such lines are
    skipped; the blanked text still goes through the item test of lines 121
    and 122. *)
Theorem ignored_property_line indent_size ignore_properties st raw p :
  reachable indent_size ignore_properties st →
  p ∈ ignore_properties →
  Py.startswith (strip_bullet raw) (p +:+ "::") = true →
  ∃ keep closed st' brk,
    environments st = keep ++ closed ∧
    Forall (λ f, f.1 < indent_of raw) keep ∧
    Forall (λ f, indent_of raw ≤ f.1) closed ∧
    brk = (if bool_decide (indent_of raw ≤ default (indent_of raw) (par_indent st))
           then nl else "") ∧
    environments st' = keep ∧
    (is_item indent_size keep (indent_of raw) ∧
     process_line indent_size ignore_properties st raw
     = Ok (st', closing_text (reverse closed) +:+ brk +:+ "\item " +:+ nl)
     ∨
     ¬ is_item indent_size keep (indent_of raw) ∧
     process_line indent_size ignore_properties st raw
     = Ok (st', closing_text (reverse closed) +:+ brk +:+ nl)).
Proof.
  intros Hst%reachable_consistent Hp Hstarts.
  pose proof (clean_ignored ignore_properties raw p Hp Hstarts) as Hclean.
  assert (is_section (clean ignore_properties raw) = false) as Hline by (by rewrite Hclean).
  destruct (process_line_spec indent_size ignore_properties st raw Hst Hline)
    as (keep & closed & st' & body & Hsplit & Hkeep & Hclosed & Hrun & Henvs & _
        & _ & Hst' & Hbody).
  rewrite Hclean in Henvs, Hbody. change (env_begin "") with (@None string) in Henvs.
  rewrite app_nil_r in Henvs.
  exists keep, closed, st'. eexists. split_and!; [done..|].
  pose proof (enum_indents_is_item indent_size st' (indent_of raw) Hst') as Hitem.
  rewrite Henvs in Hitem.
  change (render (indent_of raw) (enum_indents st') "")
    with (Ok (if bool_decide (indent_of raw ∈ enum_indents st')
              then "\item " +:+ "" else "") : result string) in Hbody.
  injection Hbody as <-.
  destruct (decide (indent_of raw ∈ enum_indents st')) as [Hin|Hin].
  - rewrite (bool_decide_eq_true_2 (indent_of raw ∈ enum_indents st')), sapp_nil_r
      in Hrun by done.
    left. split; [tauto|done].
  - rewrite (bool_decide_eq_false_2 (indent_of raw ∈ enum_indents st')) in Hrun
      by done.
    right. split; [tauto|done].
Qed.

Lemma ignored_property_line_witness :
  reachable 4 default_ignore st_itemize ∧
  "tags" ∈ default_ignore ∧
  Py.startswith (strip_bullet ("    tags:: x" +:+ nl)) ("tags" +:+ "::") = true ∧
  ∃ keep closed st' brk,
    environments st_itemize = keep ++ closed ∧
    Forall (λ f, f.1 < indent_of ("    tags:: x" +:+ nl)) keep ∧
    Forall (λ f, indent_of ("    tags:: x" +:+ nl) ≤ f.1) closed ∧
    brk = (if bool_decide (indent_of ("    tags:: x" +:+ nl)
                           ≤ default (indent_of ("    tags:: x" +:+ nl))
                               (par_indent st_itemize))
           then nl else "") ∧
    environments st' = keep ∧
    (is_item 4 keep (indent_of ("    tags:: x" +:+ nl)) ∧
     process_line 4 default_ignore st_itemize ("    tags:: x" +:+ nl)
     = Ok (st', closing_text (reverse closed) +:+ brk +:+ "\item " +:+ nl)
     ∨
     ¬ is_item 4 keep (indent_of ("    tags:: x" +:+ nl)) ∧
     process_line 4 default_ignore st_itemize ("    tags:: x" +:+ nl)
     = Ok (st', closing_text (reverse closed) +:+ brk +:+ nl)).
Proof.
  assert ("tags" ∈ default_ignore) as Htags by apply list_elem_of_here.
  split; [apply reachable_itemize|]. split; [exact Htags|]. split; [reflexivity|].
  apply (ignored_property_line 4 default_ignore st_itemize ("    tags:: x" +:+ nl)
           "tags");
    [apply reachable_itemize|exact Htags|reflexivity].
Defined.






(** ** Further properties *)

Lemma contains_char a c s :
  Py.contains (String a "") (String c s)
  = Ascii.eqb a c || Py.contains (String a "") s.
Proof.
  rewrite contains_cons. f_equal. unfold Py.startswith. cbn [Py.strip_prefix].
  by destruct (Ascii.eqb a c).
Qed.

Lemma contains_char_all a s :
  Py.contains (String a "") s = false ↔ all_chars (Re.not_char a) s = true.
Proof.
  induction s as [|c s IH]; [done|].
  rewrite contains_char. cbn [all_chars]. unfold Re.not_char at 1.
  destruct (Ascii.eqb a c); simpl; [done|]. apply IH.
Qed.

Lemma all_chars_app p s t :
  all_chars p (s +:+ t) = all_chars p s && all_chars p t.
Proof.
  induction s as [|c s IH]; [done|].
  rewrite sapp_cons. cbn [all_chars]. by rewrite IH, andb_assoc.
Qed.

(** The greedy star hands a run of the class over and what follows it to the
    continuation. *)
Lemma greedy_star_sound {B} p (k : string → option B) s g b :
  Re.greedy_star p k s = Some (g, b) →
  all_chars p g = true ∧ ∃ t, s = g +:+ t ∧ k t = Some b.
Proof.
  revert g. induction s as [|c s IH]; intros g; cbn [Re.greedy_star].
  - destruct (k "") as [b'|] eqn:Hk; [|done]. intros [= <- <-]. eauto.
  - destruct (p c) eqn:Hp.
    + destruct (Re.greedy_star p k s) as [[g' b']|] eqn:Hg.
      * intros [= <- <-]. destruct (IH g' eq_refl) as (Hall & t & -> & Hk).
        cbn [all_chars]. rewrite Hp, Hall. eauto.
      * destruct (k (String c s)) as [b'|] eqn:Hk; [|done].
        intros [= <- <-]. eauto.
    + destruct (k (String c s)) as [b'|] eqn:Hk; [|done].
      intros [= <- <-]. eauto.
Qed.

Lemma greedy_star_complete {B} p (k : string → option B) g t :
  all_chars p g = true → is_Some (k t) → is_Some (Re.greedy_star p k (g +:+ t)).
Proof.
  intros Hall [b Hk]. induction g as [|c g IH].
  - rewrite sapp_nil_l. destruct t; cbn [Re.greedy_star]; rewrite ?Hk.
    + by eexists.
    + destruct (p a); [destruct (Re.greedy_star p k t) as [[??]|]|]; by eexists.
  - cbn [all_chars] in Hall. apply andb_true_iff in Hall as [Hc Hall].
    rewrite sapp_cons. cbn [Re.greedy_star]. rewrite Hc.
    destruct (IH Hall) as [[g' b'] ->]. by eexists.
Qed.

(** When nothing of the class follows the run, the run is the group. *)
Lemma greedy_star_exact {B} p (k : string → option B) g t b :
  all_chars p g = true →
  (if t is String c _ then p c = false else True) →
  k t = Some b →
  Re.greedy_star p k (g +:+ t) = Some (g, b).
Proof.
  intros Hall Ht Hk. induction g as [|c g IH].
  - rewrite sapp_nil_l. destruct t as [|c t]; cbn [Re.greedy_star].
    + by rewrite Hk.
    + by rewrite Ht, Hk.
  - cbn [all_chars] in Hall. apply andb_true_iff in Hall as [Hc Hall].
    rewrite sapp_cons. cbn [Re.greedy_star]. by rewrite Hc, (IH Hall).
Qed.

Lemma spaces_all n : all_chars (Re.is_char " ") (spaces n) = true.
Proof. induction n; [done|]. cbn [spaces all_chars]. by rewrite IHn. Qed.

Lemma all_spaces g : all_chars (Re.is_char " ") g = true → g = spaces (String.length g).
Proof.
  induction g as [|c g IH]; [done|]. cbn [all_chars]. intros [Hc Hg]%andb_true_iff.
  unfold Re.is_char in Hc. apply Ascii.eqb_eq in Hc as <-.
  cbn [String.length spaces]. by rewrite <-IH.
Qed.

(** X1, lines 56 and 57.  Every line is its indentation, then a bullet or
    nothing, then the text the loop goes on with: the indent is the number of
    leading spaces, what follows them does not begin with a space, and the
    bullet, a hyphen and a space, is removed whenever the text after the
    indentation begins with it, and only once. *)
Theorem line_decomposition raw :
  ∃ bullet,
    raw = spaces (Z.to_nat (indent_of raw)) +:+ bullet +:+ strip_bullet raw ∧
    0 ≤ indent_of raw ∧
    Py.startswith (bullet +:+ strip_bullet raw) " " = false ∧
    (bullet = "- " ∨
     bullet = "" ∧ Py.startswith (strip_bullet raw) "- " = false).
Proof.
  unfold indent_of, strip_bullet, match_indent, Re.sub_anchored.
  destruct (Re.greedy_star (Re.is_char " ") Re.rest raw) as [[g t]|] eqn:Hg.
  2:{ destruct (greedy_star_rest_total (Re.is_char " ") raw) as (?&?&?). congruence. }
  destruct (greedy_star_sound _ _ _ _ _ Hg) as (Hall & t' & -> & [= <-]).
  assert (if t' is String c _ then Re.is_char " " c = false else True) as Hnext.
  { destruct t' as [|c t']; [done|]. destruct (Re.is_char " " c) eqn:Hc; [|done].
    exfalso. clear -Hg Hall Hc. induction g as [|a g IH].
    - rewrite sapp_nil_l in Hg. cbn [Re.greedy_star] in Hg. rewrite Hc in Hg.
      destruct (greedy_star_rest_total (Re.is_char " ") t') as (g' & t'' & Hr).
      rewrite Hr in Hg. done.
    - cbn [all_chars] in Hall. apply andb_true_iff in Hall as [Ha Hall].
      rewrite sapp_cons in Hg. cbn [Re.greedy_star] in Hg. rewrite Ha in Hg.
      destruct (Re.greedy_star (Re.is_char " ") Re.rest (g +:+ String c t'))
        as [[g' b']|] eqn:Hr.
      + injection Hg as -> ->. by apply IH.
      + destruct (greedy_star_rest_total (Re.is_char " ") (g +:+ String c t'))
          as (?&?&?). congruence. }
  rewrite (greedy_star_exact (Re.is_char " ") (Re.opt_lit "- " Re.rest) g t'
             (default t' (Py.strip_prefix "- " t'))); [|done|done|].
  2:{ unfold Re.opt_lit, Re.lit. by destruct (Py.strip_prefix "- " t'). }
  cbn [mbind option_bind]. rewrite sapp_nil_l, Nat2Z.id, <-(all_spaces g Hall).
  assert (Py.startswith t' " " = false) as Hsp.
  { destruct t' as [|c t']; [done|]. unfold Py.startswith. cbn [Py.strip_prefix].
    unfold Re.is_char in Hnext. by rewrite Hnext. }
  destruct (Py.strip_prefix "- " t') as [r|] eqn:Hb.
  - apply strip_prefix_Some in Hb as ->. exists "- ". cbn [default].
    split_and!; [done|lia|done|by left].
  - exists "". cbn [default]. rewrite sapp_nil_l.
    split_and!; [done|lia|done|]. right. split; [done|].
    unfold Py.startswith. by rewrite Hb.
Qed.

(** The lazy star stops at the first place where the continuation accepts. *)
Lemma lazy_star_sound {B} p (k : string → option B) s g b :
  Re.lazy_star p k s = Some (g, b) →
  all_chars p g = true ∧
  ∃ t, s = g +:+ t ∧ k t = Some b ∧
       ∀ g1 c g2, g = g1 +:+ String c g2 → k (String c g2 +:+ t) = None.
Proof.
  revert g. induction s as [|c s IH]; intros g; rewrite lazy_star_unfold.
  - destruct (k "") as [b'|] eqn:Hk; [|done]. intros [= <- <-].
    split; [done|]. exists "". split_and!; [done..|]. by intros [|??] ???.
  - destruct (k (String c s)) as [b'|] eqn:Hk.
    + intros [= <- <-]. split; [done|]. exists (String c s).
      split_and!; [done..|]. by intros [|??] ???.
    + destruct (p c) eqn:Hp; [|done].
      destruct (Re.lazy_star p k s) as [[g' b']|] eqn:Hg; [|done].
      intros [= <- <-]. destruct (IH g' eq_refl) as (Hall & t & -> & Hkt & Hmin).
      cbn [all_chars]. rewrite Hp, Hall. split; [done|]. exists t.
      split_and!; [done..|]. intros [|a g1] x g2 Heq.
      * rewrite sapp_nil_l in Heq. injection Heq as <- <-. by rewrite sapp_cons.
      * rewrite sapp_cons in Heq. injection Heq as <- Heq. by apply (Hmin g1).
Qed.

Lemma lazy_star_complete {B} p (k : string → option B) g t b :
  all_chars p g = true →
  k t = Some b →
  (∀ g1 c g2, g = g1 +:+ String c g2 → k (String c g2 +:+ t) = None) →
  Re.lazy_star p k (g +:+ t) = Some (g, b).
Proof.
  intros Hall Hk. induction g as [|c g IH]; intros Hmin; rewrite lazy_star_unfold.
  - by rewrite sapp_nil_l, Hk.
  - cbn [all_chars] in Hall. apply andb_true_iff in Hall as [Hc Hall].
    rewrite (Hmin "" c g eq_refl), sapp_cons, Hc, (IH Hall); [done|].
    intros g1 x g2 ->. by apply (Hmin (String c g1)).
Qed.

(** With a continuation that begins with the literal character [a], the
    places where it cannot accept are the characters other than [a]. *)
Lemma literal_fails_all {B} a l (k : string → option B) g t :
  Py.contains (String a "") g = false →
  ∀ g1 c g2, g = g1 +:+ String c g2 →
             Re.lit (String a l) k (String c g2 +:+ t) = None.
Proof.
  intros Hfree g1 c g2 ->. apply contains_char_all in Hfree.
  rewrite all_chars_app in Hfree. apply andb_true_iff in Hfree as [_ Hfree].
  cbn [all_chars] in Hfree. apply andb_true_iff in Hfree as [Hc _].
  unfold Re.not_char in Hc. unfold Re.lit. rewrite sapp_cons. cbn [Py.strip_prefix].
  by destruct (Ascii.eqb a c).
Qed.

Lemma dot_all g : all_chars Re.dot g = true ↔ Py.contains nl g = false.
Proof.
  rewrite (contains_char_all newline). induction g as [|c g IH]; [done|].
  cbn [all_chars]. unfold Re.dot at 1, Re.not_char at 1.
  rewrite (Ascii.eqb_sym c newline). by rewrite !andb_true_iff, IH.
Qed.

(** X3, line 98.  A line begins an environment exactly when it begins with
    the begin command, a name and a closing brace; the name found is the text
    up to the first closing brace, and it holds no line feed. *)
Theorem env_begin_shape line name :
  env_begin line = Some name ↔
  ∃ rest, line = "\begin{" +:+ name +:+ "}" +:+ rest ∧
          Py.contains "}" name = false ∧ Py.contains nl name = false.
Proof.
  unfold env_begin. split.
  - unfold Re.lit at 1.
    destruct (Py.strip_prefix "\begin{" line) as [s|] eqn:Hs; [|done].
    apply strip_prefix_Some in Hs as ->. cbn [mbind option_bind].
    destruct (Re.lazy_star Re.dot (Re.lit "}" Re.rest) s) as [[g b]|] eqn:Hg; [|done].
    intros [= <-]. destruct (lazy_star_sound _ _ _ _ _ Hg) as (Hall & t & -> & Hk & Hmin).
    unfold Re.lit in Hk. destruct (Py.strip_prefix "}" t) as [r|] eqn:Hr; [|done].
    apply strip_prefix_Some in Hr as ->. exists r.
    split_and!; [done| |by apply dot_all].
    apply contains_char_all. clear -Hmin.
    induction g as [|c g IH]; [done|]. cbn [all_chars]. apply andb_true_iff. split.
    + specialize (Hmin "" c g eq_refl). unfold Re.lit in Hmin.
      rewrite sapp_cons in Hmin. cbn [Py.strip_prefix] in Hmin.
      unfold Re.not_char. by destruct (Ascii.eqb "}" c).
    + apply IH. intros g1 x g2 ->. by apply (Hmin (String c g1)).
  - intros (rest & -> & Hbrace & Hnl). unfold Re.lit at 1.
    rewrite strip_prefix_app. cbn [mbind option_bind].
    rewrite (lazy_star_complete Re.dot (Re.lit "}" Re.rest) name ("}" +:+ rest) rest);
      [done|by apply dot_all|done|].
    by apply (literal_fails_all "}" "" Re.rest).
Qed.

(** X4, line 106.  A line is an equation block exactly when it is two
    dollar signs, a content without any dollar sign, two dollar signs, and
    then nothing or the line feed; the content is the group. *)
Theorem latex_eq_shape line content :
  latex_eq line = Some content ↔
  ∃ tail, line = "$$" +:+ content +:+ "$$" +:+ tail ∧
          (tail = "" ∨ tail = nl) ∧ Py.contains "$" content = false.
Proof.
  split.
  - unfold latex_eq. unfold Re.lit at 1.
    destruct (Py.strip_prefix "$$" line) as [s|] eqn:Hs; [|done].
    apply strip_prefix_Some in Hs as ->. cbn [mbind option_bind].
    destruct (Re.lazy_star (Re.not_char "$") (Re.lit "$$" Re.eos) s)
      as [[g b]|] eqn:Hg; [|done].
    intros [= <-]. destruct (lazy_star_sound _ _ _ _ _ Hg) as (Hall & t & -> & Hk & _).
    unfold Re.lit in Hk. destruct (Py.strip_prefix "$$" t) as [r|] eqn:Hr; [|done].
    apply strip_prefix_Some in Hr as ->. cbn [mbind option_bind] in Hk.
    unfold Re.eos in Hk. case_decide; [|done]. exists r.
    split_and!; [done..|]. by apply contains_char_all.
  - intros (tail & -> & Htail & Hfree). by apply latex_eq_matches.
Qed.

(** X2, line 64.  Removing a directive in double braces only ever drops a
    prefix of the line; a line that does not begin with two opening braces is
    left as it is; and for a line that begins with two opening braces, a
    text of one character or more on the same line whose characters after
    the first are no closing braces, and two closing braces, what is left is
    what follows the closing braces. *)
Theorem strip_directive_cases line :
  (∃ dropped, line = dropped +:+ strip_directive line) ∧
  (Py.startswith line "{{" = false → strip_directive line = line) ∧
  (∀ c g rest,
     line = "{{" +:+ String c g +:+ "}}" +:+ rest →
     Py.contains nl (String c g) = false →
     Py.contains "}" g = false →
     strip_directive line = rest).
Proof.
  unfold strip_directive, Re.sub_anchored. split_and!.
  - unfold Re.lit at 1.
    destruct (Py.strip_prefix "{{" line) as [s|] eqn:Hs; [|by exists ""].
    apply strip_prefix_Some in Hs as ->. cbn [mbind option_bind].
    unfold Re.lazy_plus. destruct s as [|c s]; [by exists ""|].
    destruct (Re.dot c); [|by exists ""].
    destruct (Re.lazy_star Re.dot (Re.lit "}}" Re.rest) s) as [[g b]|] eqn:Hg;
      [|by exists ""].
    cbn [mbind option_bind]. destruct (lazy_star_sound _ _ _ _ _ Hg) as (_ & t & -> & Hk & _).
    unfold Re.lit in Hk. destruct (Py.strip_prefix "}}" t) as [r|] eqn:Hr; [|done].
    apply strip_prefix_Some in Hr as ->. injection Hk as <-.
    exists ("{{" +:+ String c g +:+ "}}"). by rewrite !sapp_assoc.
  - intros Hs. unfold Re.lit at 1. unfold Py.startswith in Hs.
    by destruct (Py.strip_prefix "{{" line).
  - intros c g rest -> Hnl Hbrace. unfold Re.lit at 1.
    rewrite strip_prefix_app. cbn [mbind option_bind].
    rewrite sapp_cons. unfold Re.lazy_plus.
    apply dot_all in Hnl. cbn [all_chars] in Hnl.
    apply andb_true_iff in Hnl as [Hc Hg]. rewrite Hc.
    rewrite (lazy_star_complete Re.dot (Re.lit "}}" Re.rest) g ("}}" +:+ rest) rest);
      [done|done|done|].
    by apply (literal_fails_all "}" "}" Re.rest).
Qed.

Lemma greedy_plus_sound {B} p (k : string → option B) s g b :
  Re.greedy_plus p k s = Some (g, b) →
  g ≠ "" ∧ all_chars p g = true ∧ ∃ t, s = g +:+ t ∧ k t = Some b.
Proof.
  unfold Re.greedy_plus. destruct s as [|c s]; [done|].
  destruct (p c) eqn:Hp; [|done].
  destruct (Re.greedy_star p k s) as [[g' b']|] eqn:Hg; [|done].
  intros [= <- <-]. destruct (greedy_star_sound _ _ _ _ _ Hg) as (Hall & t & -> & Hk).
  split; [done|]. cbn [all_chars]. rewrite Hp, Hall. eauto.
Qed.

Lemma greedy_plus_complete {B} p (k : string → option B) g t :
  g ≠ "" → all_chars p g = true → is_Some (k t) →
  is_Some (Re.greedy_plus p k (g +:+ t)).
Proof.
  intros Hne Hall Hk. destruct g as [|c g]; [done|].
  cbn [all_chars] in Hall. apply andb_true_iff in Hall as [Hc Hall].
  rewrite sapp_cons. unfold Re.greedy_plus. rewrite Hc.
  destruct (greedy_star_complete p k g t Hall Hk) as [[g' b'] ->]. by eexists.
Qed.

(** X5, line 29.  A link text passes the test of [render_citation]
    exactly when it is one letter or more, then one digit or more, then any
    number of letters, then nothing or a line feed: the dollar anchor of the
    pattern also accepts a final line feed. *)
Theorem citation_key_shape link_text :
  citation_key link_text = true ↔
  ∃ letters digits more tail,
    link_text = letters +:+ digits +:+ more +:+ tail ∧
    letters ≠ "" ∧ all_chars is_alpha letters = true ∧
    digits ≠ "" ∧ all_chars is_digit digits = true ∧
    all_chars is_alpha more = true ∧
    (tail = "" ∨ tail = nl).
Proof.
  unfold citation_key. split.
  - destruct (Re.greedy_plus is_alpha _ link_text) as [[a [d [b t]]]|] eqn:H; [|done].
    intros _.
    destruct (greedy_plus_sound _ _ _ _ _ H) as (Ha & Halla & s1 & -> & H1).
    destruct (greedy_plus_sound _ _ _ _ _ H1) as (Hd & Halld & s2 & -> & H2).
    destruct (greedy_star_sound _ _ _ _ _ H2) as (Hallb & s3 & -> & H3).
    unfold Re.eos in H3. case_decide; [|done]. injection H3 as <-.
    exists a, d, b, s3. done.
  - intros (a & d & b & tail & -> & Ha & Halla & Hd & Halld & Hallb & Htail).
    assert (is_Some (Re.eos tail)) as H3.
    { unfold Re.eos. rewrite decide_True by done. by eexists. }
    pose proof (greedy_star_complete is_alpha Re.eos b tail Hallb H3) as H2.
    pose proof (greedy_plus_complete is_digit _ d (b +:+ tail) Hd Halld H2) as H1.
    destruct (greedy_plus_complete is_alpha _ a (d +:+ b +:+ tail) Ha Halla H1)
      as [x ->].
    done.
Qed.

(** ** Text without markup *)

Lemma split_scan_absent d text :
  Py.contains d text = false → Py.split_scan d 0 text = [text].
Proof.
  induction text as [|c text IH]; [done|].
  rewrite contains_cons. intros [Hs Hc]%orb_false_elim.
  cbn [Py.split_scan]. by rewrite Hs, (IH Hc).
Qed.

Lemma replace_markup_via_absent text d f :
  d ≠ "" → Py.contains d text = false → replace_markup_via text d f = Ok text.
Proof.
  intros Hd Hfree. rewrite replace_markup_via_spec by done.
  by rewrite split_scan_absent.
Qed.

Lemma markup_absent line :
  Py.contains "__" line = false → Py.contains "**" line = false →
  Py.contains "^^" line = false → markup line = Ok line.
Proof.
  intros H1 H2 H3. unfold markup.
  rewrite (replace_markup_via_absent line "__") by done. cbn [mbind result_bind].
  rewrite (replace_markup_via_absent line "**") by done. cbn [mbind result_bind].
  by rewrite (replace_markup_via_absent line "^^").
Qed.

Lemma sub_scan_no_start a m s :
  (∀ c r, Ascii.eqb a c = false → m (String c r) = None) →
  Py.contains (String a "") s = false →
  Re.sub_scan m 0 s = s.
Proof.
  intros Hm. induction s as [|c s IH]; [done|].
  rewrite contains_char. intros [Hc Hs]%orb_false_elim.
  cbn [Re.sub_scan]. by rewrite (Hm c s Hc), (IH Hs).
Qed.

Lemma sub_links_no_bracket s : Py.contains "[" s = false → sub_links s = s.
Proof.
  apply (sub_scan_no_start "["). intros c r Hc.
  unfold Re.lit. cbn [Py.strip_prefix]. by rewrite Hc.
Qed.

Lemma sub_hrefs_no_bracket s : Py.contains "[" s = false → sub_hrefs s = s.
Proof.
  apply (sub_scan_no_start "["). intros c r Hc.
  unfold Re.lit at 1. cbn [Py.strip_prefix]. by rewrite Hc.
Qed.

(** X6, lines 111 to 119.  A line with none of the three markup
    delimiters, no double dollar sign and no opening bracket goes through the
    inline replacements unchanged. *)
Theorem inline_plain line :
  Py.contains "__" line = false → Py.contains "**" line = false →
  Py.contains "^^" line = false → Py.contains "$$" line = false →
  Py.contains "[" line = false →
  inline line = Ok line.
Proof.
  intros H1 H2 H3 H4 H5. unfold inline. rewrite markup_absent by done.
  cbn [mbind result_bind]. unfold Py.replace.
  rewrite split_scan_absent by done. cbn [Py.join].
  by rewrite sub_links_no_bracket, sub_hrefs_no_bracket.
Qed.

Lemma inline_plain_witness :
  Py.contains "__" ("plain text" +:+ nl) = false ∧
  Py.contains "**" ("plain text" +:+ nl) = false ∧
  Py.contains "^^" ("plain text" +:+ nl) = false ∧
  Py.contains "$$" ("plain text" +:+ nl) = false ∧
  Py.contains "[" ("plain text" +:+ nl) = false ∧
  inline ("plain text" +:+ nl) = Ok ("plain text" +:+ nl).
Proof.
  do 5 (split; [reflexivity|]).
  apply (inline_plain ("plain text" +:+ nl)); reflexivity.
Defined.

(** X7, lines 35 to 39 and 111 to 113.  The three markup replacements leave
    nothing for themselves to do: applied to their own result they return
    it unchanged. *)
Theorem markup_idempotent line s : markup line = Ok s → markup s = Ok s.
Proof.
  intros Hs. destruct (markup_free line) as (s' & Hs' & H1 & H2 & H3).
  rewrite Hs in Hs'. injection Hs' as <-. by apply markup_absent.
Qed.

Lemma markup_idempotent_witness :
  markup "a **b** and __c__" = Ok "a \textbf{b} and \emph{c}" ∧
  markup "a \textbf{b} and \emph{c}" = Ok "a \textbf{b} and \emph{c}".
Proof.
  split; [reflexivity|].
  apply (markup_idempotent "a **b** and __c__" "a \textbf{b} and \emph{c}").
  reflexivity.
Defined.

(** ** Links *)

Lemma sub_scan_skip m p s :
  Re.sub_scan m (String.length p) (p +:+ s) = Re.sub_scan m 0 s.
Proof.
  induction p as [|c p IH]; [by destruct s|].
  rewrite sapp_cons. cbn [String.length Re.sub_scan]. done.
Qed.

Lemma sub_scan_match m c matched tail repl :
  m (String c (matched +:+ tail)) = Some (repl, tail) →
  Re.sub_scan m 0 (String c (matched +:+ tail)) = repl +:+ Re.sub_scan m 0 tail.
Proof.
  intros Hm. cbn [Re.sub_scan]. rewrite Hm, sapp_length.
  replace (String.length matched + String.length tail - String.length tail)%nat
    with (String.length matched) by lia.
  by rewrite sub_scan_skip.
Qed.

Lemma sub_scan_prefix a m pre s :
  (∀ c r, Ascii.eqb a c = false → m (String c r) = None) →
  Py.contains (String a "") pre = false →
  Re.sub_scan m 0 (pre +:+ s) = pre +:+ Re.sub_scan m 0 s.
Proof.
  intros Hm. induction pre as [|c pre IH]; [done|].
  rewrite contains_char. intros [Hc Hpre]%orb_false_elim.
  rewrite !sapp_cons. cbn [Re.sub_scan]. by rewrite (Hm c _ Hc), (IH Hpre).
Qed.

Lemma pair_fails_all {B} a b l (k : string → option B) g t :
  Py.contains (pair a b) (g +:+ String a "") = false →
  ∀ g1 c g2, g = g1 +:+ String c g2 →
             Re.lit (String a (String b l)) k (String c g2 +:+ String a (String b t))
             = None.
Proof.
  intros Hfree g1 c g2 ->. rewrite sapp_assoc in Hfree.
  apply contains_pair_app_inv in Hfree as [_ Hfree].
  rewrite sapp_cons, contains_cons in Hfree. apply orb_false_elim in Hfree as [Hs _].
  rewrite startswith_pair in Hs.
  unfold Re.lit. rewrite sapp_cons. cbn [Py.strip_prefix].
  destruct (Ascii.eqb a c); [|done]. simpl in Hs.
  destruct g2 as [|x g2].
  - rewrite sapp_nil_l in Hs |- *. simpl in Hs. cbn [Py.strip_prefix].
    destruct (Ascii.eqb_spec b a) as [->|Hne]; [|done].
    rewrite bool_decide_eq_true_2 in Hs; done.
  - rewrite sapp_cons in Hs |- *. simpl in Hs. cbn [Py.strip_prefix].
    destruct (Ascii.eqb_spec b x) as [->|Hne]; [|done].
    rewrite bool_decide_eq_true_2 in Hs; done.
Qed.

Lemma link_matcher_start c r :
  Ascii.eqb "[" c = false →
  ('(g, tail) ← Re.lit "[[" (Re.lazy_star Re.dot (Re.lit "]]" Re.rest)) (String c r);
   Some (render_citation g, tail)) = None.
Proof. intros Hc. unfold Re.lit at 1. cbn [Py.strip_prefix]. by rewrite Hc. Qed.

(** X8, lines 27 to 32 and 117.  The first link in double brackets of a
    line: when no opening bracket stands before it, and its text holds no
    line feed and, with the bracket that follows it, no two closing brackets,
    the link is replaced by what [render_citation] returns for its text, the
    text before it is kept, and the replacement goes on after the closing
    brackets. *)
Theorem sub_links_one pre text post :
  Py.contains "[" pre = false →
  Py.contains nl text = false →
  Py.contains "]]" (text +:+ "]") = false →
  sub_links (pre +:+ "[[" +:+ text +:+ "]]" +:+ post)
  = pre +:+ render_citation text +:+ sub_links post.
Proof.
  intros Hpre Hnl Hclose. unfold sub_links, Re.sub.
  rewrite (sub_scan_prefix "[" _ pre); [|apply link_matcher_start|done].
  f_equal.
  replace ("[[" +:+ text +:+ "]]" +:+ post)
    with (String "[" (("[" +:+ text +:+ "]]") +:+ post))
    by (by rewrite !sapp_assoc).
  rewrite (sub_scan_match _ "[" ("[" +:+ text +:+ "]]") post (render_citation text));
    [done|].
  rewrite !sapp_assoc.
  change (String "[" ("[" +:+ text +:+ "]]" +:+ post))
    with ("[[" +:+ text +:+ "]]" +:+ post).
  unfold Re.lit at 1. rewrite strip_prefix_app. cbn [mbind option_bind].
  rewrite (lazy_star_complete Re.dot (Re.lit "]]" Re.rest) text ("]]" +:+ post) post);
    [done|by apply dot_all|done|].
  by apply (pair_fails_all "]" "]" "" Re.rest).
Qed.

Lemma sub_links_one_witness :
  Py.contains "[" "see " = false ∧
  Py.contains nl "Smith99" = false ∧
  Py.contains "]]" ("Smith99" +:+ "]") = false ∧
  sub_links ("see " +:+ "[[" +:+ "Smith99" +:+ "]]" +:+ " and [[a page]]")
  = "see " +:+ render_citation "Smith99" +:+ sub_links " and [[a page]]".
Proof.
  do 3 (split; [reflexivity|]).
  apply (sub_links_one "see " "Smith99" " and [[a page]]"); reflexivity.
Defined.

Lemma greedy_star_none p l s :
  Py.contains (String l "") s = false →
  Re.greedy_star p (Re.lit (String l "") Re.rest) s = None.
Proof.
  induction s as [|c s IH]; [done|].
  rewrite contains_char. intros [Hc Hs]%orb_false_elim.
  cbn [Re.greedy_star]. rewrite (IH Hs). unfold Re.lit. cbn [Py.strip_prefix].
  rewrite Hc. by destruct (p c).
Qed.

(** The greedy star gives back down to the last place where the continuation
    accepts. *)
Lemma greedy_star_last {B} p (k : string → option B) g a t b :
  all_chars p g = true →
  Re.greedy_star p k t = None →
  k (String a t) = Some b →
  Re.greedy_star p k (g +:+ String a t) = Some (g, b).
Proof.
  intros Hall Hnone Hk. induction g as [|c g IH].
  - rewrite sapp_nil_l. cbn [Re.greedy_star]. rewrite Hnone, Hk. by destruct (p a).
  - cbn [all_chars] in Hall. apply andb_true_iff in Hall as [Hc Hall].
    rewrite sapp_cons. cbn [Re.greedy_star]. by rewrite Hc, (IH Hall).
Qed.

Lemma lazy_star_none {B} p (k : string → option B) s :
  (∀ s1 s2, s = s1 +:+ s2 → k s2 = None) → Re.lazy_star p k s = None.
Proof.
  induction s as [|c s IH]; intros Hk; rewrite lazy_star_unfold.
  - by rewrite (Hk "" "" eq_refl).
  - rewrite (Hk "" (String c s) eq_refl). destruct (p c); [|done].
    rewrite IH; [done|]. intros s1 s2 ->. by apply (Hk (String c s1)).
Qed.

Lemma href_matcher_start c r : Ascii.eqb "[" c = false → href_matcher (String c r) = None.
Proof.
  intros Hc. unfold href_matcher. unfold Re.lit at 1. cbn [Py.strip_prefix].
  by rewrite Hc.
Qed.

Lemma contains_suffix d s1 s2 :
  Py.contains d (s1 +:+ s2) = false → Py.contains d s2 = false.
Proof.
  induction s1 as [|c s1 IH]; [done|].
  rewrite sapp_cons, contains_cons. intros [_ H]%orb_false_elim. by apply IH.
Qed.

Lemma href_matcher_none s : Py.contains ")" s = false → href_matcher s = None.
Proof.
  intros Hfree. unfold href_matcher. unfold Re.lit at 1.
  destruct (Py.strip_prefix "[" s) as [r|] eqn:Hr; [|done].
  apply strip_prefix_Some in Hr as ->. cbn [mbind option_bind].
  rewrite lazy_star_none; [done|]. intros s1 s2 ->. unfold Re.lit at 1.
  destruct (Py.strip_prefix "](" s2) as [y|] eqn:Hy; [|done].
  apply strip_prefix_Some in Hy as ->. cbn [mbind option_bind].
  apply (greedy_star_none Re.dot ")").
  apply (contains_suffix _ ("[" +:+ s1 +:+ "](")). by rewrite !sapp_assoc.
Qed.

Lemma sub_scan_none m s :
  (∀ s1 s2, s = s1 +:+ s2 → m s2 = None) → Re.sub_scan m 0 s = s.
Proof.
  induction s as [|c s IH]; intros Hm; [done|].
  cbn [Re.sub_scan]. rewrite (Hm "" (String c s) eq_refl), IH; [done|].
  intros s1 s2 ->. by apply (Hm (String c s1)).
Qed.

(** X9, line 119.  A single inline link: when no opening bracket stands
    before it, the label holds neither a line feed nor a closing bracket
    followed by an opening parenthesis, the target holds no line feed and no
    closing parenthesis follows the link, the link is replaced by the
    hyperlink command with the target first and the label second.  The
    target may hold closing parentheses: its group is greedy and runs to the
    last one of the line. *)
Theorem sub_hrefs_one pre label target rest :
  Py.contains "[" pre = false →
  Py.contains nl label = false →
  Py.contains "](" label = false →
  Py.contains nl target = false →
  Py.contains ")" rest = false →
  sub_hrefs (pre +:+ "[" +:+ label +:+ "](" +:+ target +:+ ")" +:+ rest)
  = pre +:+ "\href{" +:+ target +:+ "}{" +:+ label +:+ "}" +:+ rest.
Proof.
  intros Hpre Hlabel Hseam Htarget Hrest.
  change (sub_hrefs ?s) with (Re.sub_scan href_matcher 0 s).
  rewrite (sub_scan_prefix "[" _ pre); [|apply href_matcher_start|done].
  f_equal.
  change ("[" +:+ label +:+ "](" +:+ target +:+ ")" +:+ rest)
    with (String "[" (label +:+ "](" +:+ target +:+ ")" +:+ rest)).
  replace (label +:+ "](" +:+ target +:+ ")" +:+ rest)
    with ((label +:+ "](" +:+ target +:+ ")") +:+ rest) by (by rewrite !sapp_assoc).
  rewrite (sub_scan_match _ "[" _ rest ("\href{" +:+ target +:+ "}{" +:+ label +:+ "}")).
  - rewrite sub_scan_none; [by rewrite !sapp_assoc|].
    intros s1 s2 ->. apply href_matcher_none. by apply (contains_suffix _ s1).
  - rewrite !sapp_assoc. unfold href_matcher. unfold Re.lit at 1.
    cbn [Py.strip_prefix]. rewrite Ascii.eqb_refl. cbn [mbind option_bind].
    rewrite (lazy_star_complete Re.dot _ label ("](" +:+ target +:+ ")" +:+ rest)
               (target, rest)); [done|by apply dot_all| |].
    + unfold Re.lit at 1. rewrite strip_prefix_app. cbn [mbind option_bind].
      apply greedy_star_last; [by apply dot_all| |done].
      by apply (greedy_star_none Re.dot ")").
    + apply (pair_fails_all "]" "(").
      apply contains_pair_app_false; [done|done|]. right. done.
Qed.

Lemma sub_hrefs_one_witness :
  Py.contains "[" "see " = false ∧
  Py.contains nl "the site" = false ∧
  Py.contains "](" "the site" = false ∧
  Py.contains nl "http://a.org/b_(c)" = false ∧
  Py.contains ")" (" today" +:+ nl) = false ∧
  sub_hrefs ("see " +:+ "[" +:+ "the site" +:+ "](" +:+ "http://a.org/b_(c)"
             +:+ ")" +:+ " today" +:+ nl)
  = "see " +:+ "\href{" +:+ "http://a.org/b_(c)" +:+ "}{" +:+ "the site" +:+ "}"
    +:+ " today" +:+ nl.
Proof.
  do 5 (split; [reflexivity|]).
  apply (sub_hrefs_one "see " "the site" "http://a.org/b_(c)" (" today" +:+ nl));
    reflexivity.
Defined.

(** ** Runs *)

Lemma indent_of_nonneg raw : 0 ≤ indent_of raw.
Proof. unfold indent_of. destruct (match_indent raw) as [[??]|]; lia. Qed.

Lemma process_line_Ok_spec indent_size ignore_properties st raw st' text :
  consistent indent_size st →
  process_line indent_size ignore_properties st raw = Ok (st', text) →
  is_section (clean ignore_properties raw) = false ∧
  ∃ keep closed body,
    environments st = keep ++ closed ∧
    Forall (λ f, f.1 < indent_of raw) keep ∧
    Forall (λ f, indent_of raw ≤ f.1) closed ∧
    text = closing_text (reverse closed)
           +:+ (if bool_decide (indent_of raw ≤ default (indent_of raw) (par_indent st))
                then nl else "")
           +:+ body +:+ nl ∧
    environments st'
    = keep ++ (if env_begin (clean ignore_properties raw) is Some e
               then [(indent_of raw, e)] else []) ∧
    par_indent st'
    = Some (if bool_decide (indent_of raw ≤ default (indent_of raw) (par_indent st))
            then indent_of raw else default (indent_of raw) (par_indent st)) ∧
    section_indent st' = section_indent st ∧
    consistent indent_size st' ∧
    render (indent_of raw) (enum_indents st') (clean ignore_properties raw) = Ok body.
Proof.
  intros Hst Hrun. destruct (is_section (clean ignore_properties raw)) eqn:Hline.
  { by rewrite process_line_heading in Hrun. }
  split; [done|].
  destruct (process_line_spec indent_size ignore_properties st raw Hst Hline)
    as (keep & closed & st'' & body & H1 & H2 & H3 & Hrun' & H4 & H5 & H6 & H7 & H8).
  rewrite Hrun' in Hrun. injection Hrun as -> <-.
  exists keep, closed, body. done.
Qed.

Lemma reachable_no_section indent_size ignore_properties st :
  reachable indent_size ignore_properties st → section_indent st = None.
Proof.
  induction 1 as [|st line st' text Hreach IH Hrun]; [done|].
  apply reachable_consistent in Hreach.
  destruct (process_line_Ok_spec _ _ _ _ _ _ Hreach Hrun)
    as (_ & ? & ? & ? & _ & _ & _ & _ & _ & _ & Hsec & _). congruence.
Qed.

Lemma reachable_frames_nonneg indent_size ignore_properties st :
  reachable indent_size ignore_properties st →
  Forall (λ f, 0 ≤ f.1) (environments st).
Proof.
  induction 1 as [|st line st' text Hreach IH Hrun]; [done|].
  apply reachable_consistent in Hreach.
  destruct (process_line_Ok_spec _ _ _ _ _ _ Hreach Hrun)
    as (_ & keep & closed & ? & Hsplit & _ & _ & _ & -> & _).
  rewrite Hsplit in IH. apply Forall_app in IH as [IH _].
  apply Forall_app. split; [done|].
  destruct (env_begin _); [|done]. repeat constructor. apply indent_of_nonneg.
Qed.

Lemma reachable_baseline indent_size ignore_properties st :
  reachable indent_size ignore_properties st →
  st = initial ∨ ∃ p, par_indent st = Some p ∧ 0 ≤ p.
Proof.
  induction 1 as [|st line st' text Hreach IH Hrun]; [by left|]. right.
  apply reachable_consistent in Hreach.
  destruct (process_line_Ok_spec _ _ _ _ _ _ Hreach Hrun)
    as (_ & ? & ? & ? & _ & _ & _ & _ & _ & -> & _).
  pose proof (indent_of_nonneg line).
  eexists. split; [done|]. case_bool_decide; [done|].
  destruct IH as [->|(p & -> & Hp)]; simpl in *; lia.
Qed.

(** X10, lines 48 to 126.  What holds in every state the loop reaches: no
    section indent was ever recorded (a heading line raises before the next
    line is read), the item indents are those of the open list frames, the
    frames are in strictly increasing order of indent, no frame has a
    negative indent, and past the initial state the paragraph baseline is
    defined and not negative. *)
Theorem reachable_invariants indent_size ignore_properties st :
  reachable indent_size ignore_properties st →
  section_indent st = None ∧
  enum_indents st ≡ₚ item_indents indent_size (environments st) ∧
  increasing (environments st) ∧
  Forall (λ f, 0 ≤ f.1) (environments st) ∧
  (st = initial ∨ ∃ p, par_indent st = Some p ∧ 0 ≤ p).
Proof.
  intros Hreach. pose proof (reachable_consistent _ _ _ Hreach) as [Hitems Horder].
  split_and!; [|done|done| |].
  - by eapply reachable_no_section.
  - by eapply reachable_frames_nonneg.
  - by eapply reachable_baseline.
Qed.

Lemma reachable_invariants_witness :
  reachable 4 default_ignore st_nested ∧
  section_indent st_nested = None ∧
  enum_indents st_nested ≡ₚ item_indents 4 (environments st_nested) ∧
  increasing (environments st_nested) ∧
  Forall (λ f, 0 ≤ f.1) (environments st_nested) ∧
  (st_nested = initial ∨ ∃ p, par_indent st_nested = Some p ∧ 0 ≤ p).
Proof.
  split; [apply reachable_nested|].
  apply (reachable_invariants 4 default_ignore st_nested), reachable_nested.
Defined.

Lemma reachable_run indent_size ignore_properties lines : ∀ st out st' out',
  reachable indent_size ignore_properties st →
  convert_lines indent_size ignore_properties st out lines = Ok (st', out') →
  reachable indent_size ignore_properties st'.
Proof.
  induction lines as [|line lines IH]; intros st out st' out' Hst Hrun.
  - by injection Hrun as <- _.
  - cbn [convert_lines] in Hrun.
    destruct (process_line indent_size ignore_properties st line) as [[st1 text]|]
      eqn:Hline; [|done].
    cbn [mbind result_bind] in Hrun. eapply IH; [|done].
    by eapply reachable_step.
Qed.

(** X11, lines 88 to 90.  Once the paragraph baseline is defined it never
    grows: after any further lines that are converted it is defined and at
    most what it was. *)
Theorem baseline_never_increases indent_size ignore_properties lines :
  ∀ st out st' out' p,
    reachable indent_size ignore_properties st →
    convert_lines indent_size ignore_properties st out lines = Ok (st', out') →
    par_indent st = Some p →
    ∃ p', par_indent st' = Some p' ∧ p' ≤ p.
Proof.
  induction lines as [|line lines IH]; intros st out st' out' p Hst Hrun Hp.
  - injection Hrun as <- _. exists p. split; [done|lia].
  - cbn [convert_lines] in Hrun.
    destruct (process_line indent_size ignore_properties st line) as [[st1 text]|]
      eqn:Hline; [|done].
    cbn [mbind result_bind] in Hrun.
    destruct (process_line_Ok_spec _ _ _ _ _ _ (reachable_consistent _ _ _ Hst) Hline)
      as (_ & ? & ? & ? & _ & _ & _ & _ & _ & Hpar & _).
    rewrite Hp in Hpar. simpl in Hpar.
    destruct (IH st1 _ st' out' _ (reachable_step _ _ _ _ _ _ Hst Hline) Hrun Hpar)
      as (p' & Hp' & Hle).
    exists p'. split; [done|]. case_bool_decide; lia.
Qed.

Lemma baseline_never_increases_witness :
  reachable 4 default_ignore st_nested ∧
  convert_lines 4 default_ignore st_nested ""
    ["        - deep" +:+ nl; "back" +:+ nl]
  = Ok ({| section_indent := None; par_indent := Some 0;
           environments := []; enum_indents := [] |},
        "\item deep" +:+ nl +:+ nl +:+ "\end{enumerate}" +:+ nl
        +:+ "\end{itemize}" +:+ nl +:+ nl +:+ "back" +:+ nl +:+ nl) ∧
  par_indent st_nested = Some 0 ∧
  ∃ p', par_indent {| section_indent := None; par_indent := Some 0;
                      environments := []; enum_indents := [] |} = Some p' ∧
        p' ≤ 0.
Proof.
  split; [apply reachable_nested|]. split; [reflexivity|]. split; [reflexivity|].
  eapply (baseline_never_increases 4 default_ignore
            ["        - deep" +:+ nl; "back" +:+ nl] st_nested "" _ _ 0);
    [apply reachable_nested|reflexivity|reflexivity].
Defined.

(** X12, lines 77 to 90.  A line without indentation, no heading, closes
    every open environment, top first, and is given a paragraph break; after
    it the stack holds at most the environment the line itself begins, and
    the paragraph baseline is 0. *)
Theorem top_level_line_closes_all indent_size ignore_properties st raw :
  reachable indent_size ignore_properties st →
  is_section (clean ignore_properties raw) = false →
  indent_of raw = 0 →
  ∃ st' body,
    process_line indent_size ignore_properties st raw
    = Ok (st', closing_text (reverse (environments st)) +:+ nl +:+ body +:+ nl) ∧
    render 0 (enum_indents st') (clean ignore_properties raw) = Ok body ∧
    environments st'
    = (if env_begin (clean ignore_properties raw) is Some e then [(0, e)] else []) ∧
    par_indent st' = Some 0.
Proof.
  intros Hreach Hline Hzero.
  pose proof (reachable_frames_nonneg _ _ _ Hreach) as Hpos.
  pose proof (reachable_baseline _ _ _ Hreach) as Hpar.
  destruct (process_line_spec indent_size ignore_properties st raw
              (reachable_consistent _ _ _ Hreach) Hline)
    as (keep & closed & st' & body & Hsplit & Hkeep & Hclosed & Hrun & Henvs & Hp
        & _ & _ & Hbody).
  rewrite Hzero in *.
  assert (keep = []) as ->.
  { destruct keep as [|f keep]; [done|]. rewrite Hsplit in Hpos.
    inversion_clear Hpos. inversion_clear Hkeep. lia. }
  assert (bool_decide (0 ≤ default 0 (par_indent st)) = true) as Hbrk.
  { apply bool_decide_eq_true_2.
    destruct Hpar as [->|(p & -> & ?)]; simpl; lia. }
  rewrite Hbrk in Hrun, Hp. rewrite app_nil_l in Hsplit, Henvs. subst closed.
  exists st', body. done.
Qed.

Lemma top_level_line_closes_all_witness :
  reachable 4 default_ignore st_nested ∧
  is_section (clean default_ignore ("back" +:+ nl)) = false ∧
  indent_of ("back" +:+ nl) = 0 ∧
  ∃ st' body,
    process_line 4 default_ignore st_nested ("back" +:+ nl)
    = Ok (st', closing_text (reverse (environments st_nested))
               +:+ nl +:+ body +:+ nl) ∧
    render 0 (enum_indents st') (clean default_ignore ("back" +:+ nl)) = Ok body ∧
    environments st'
    = (if env_begin (clean default_ignore ("back" +:+ nl)) is Some e
       then [(0, e)] else []) ∧
    par_indent st' = Some 0.
Proof.
  split; [apply reachable_nested|]. split; [reflexivity|]. split; [reflexivity|].
  apply (top_level_line_closes_all 4 default_ignore st_nested ("back" +:+ nl));
    [apply reachable_nested|reflexivity|reflexivity].
Defined.

(** X13, lines 98 to 103, 121 and 122.  With an indent size of 0 or less no
    line below a list is marked as an item: a line that is converted and
    stands at an item indent is then the line that begins the list itself,
    and the indent size is 0. *)
Theorem item_needs_positive_indent_size indent_size ignore_properties st raw st' text :
  reachable indent_size ignore_properties st →
  indent_size ≤ 0 →
  process_line indent_size ignore_properties st raw = Ok (st', text) →
  indent_of raw ∈ enum_indents st' →
  indent_size = 0 ∧
  ∃ e, env_begin (clean ignore_properties raw) = Some e ∧ is_list_env e.
Proof.
  intros Hreach Hsize Hrun Hin.
  destruct (process_line_Ok_spec _ _ _ _ _ _ (reachable_consistent _ _ _ Hreach) Hrun)
    as (_ & keep & closed & ? & _ & Hkeep & _ & _ & Henvs & _ & _ & Hst' & _).
  apply (enum_indents_is_item _ _ _ Hst') in Hin as (f & Hf & Hlist & Heq).
  rewrite Henvs in Hf. apply elem_of_app in Hf as [Hf|Hf].
  - apply (proj1 (Forall_forall _ _) Hkeep) in Hf. lia.
  - destruct (env_begin (clean ignore_properties raw)) as [e|];
      [|by apply elem_of_nil in Hf].
    apply list_elem_of_singleton in Hf as ->. simpl in *.
    split; [lia|]. by exists e.
Qed.

Lemma item_needs_positive_indent_size_witness :
  reachable 0 default_ignore initial ∧
  0 ≤ 0 ∧
  process_line 0 default_ignore initial ("\begin{itemize}" +:+ nl)
  = Ok ({| section_indent := None; par_indent := Some 0;
           environments := [(0, "itemize")]; enum_indents := [0] |},
        nl +:+ "\item \begin{itemize}" +:+ nl +:+ nl) ∧
  indent_of ("\begin{itemize}" +:+ nl)
  ∈ enum_indents {| section_indent := None; par_indent := Some 0;
                    environments := [(0, "itemize")]; enum_indents := [0] |} ∧
  0 = 0 ∧
  ∃ e, env_begin (clean default_ignore ("\begin{itemize}" +:+ nl)) = Some e ∧
       is_list_env e.
Proof.
  split; [constructor|]. split; [lia|]. split; [reflexivity|].
  split; [constructor|].
  apply (item_needs_positive_indent_size 0 default_ignore initial
           ("\begin{itemize}" +:+ nl)
           {| section_indent := None; par_indent := Some 0;
              environments := [(0, "itemize")]; enum_indents := [0] |}
           (nl +:+ "\item \begin{itemize}" +:+ nl +:+ nl));
    [constructor|lia|reflexivity|constructor].
Defined.

(** X14, lines 77 to 86, 121 and 122.  With a positive indent size, a line
    one indent size to the right of the list on top of the stack, no heading
    and no equation block, closes nothing and is written as an item: the
    paragraph break if due, the item command, and the line after the inline
    replacements. *)
Theorem list_item_marked indent_size ignore_properties st raw below ind env :
  reachable indent_size ignore_properties st →
  environments st = below ++ [(ind, env)] →
  is_list_env env →
  0 < indent_size →
  indent_of raw = ind + indent_size →
  is_section (clean ignore_properties raw) = false →
  latex_eq (clean ignore_properties raw) = None →
  ∃ st' text,
    inline (clean ignore_properties raw) = Ok text ∧
    process_line indent_size ignore_properties st raw
    = Ok (st', (if bool_decide (indent_of raw ≤ default (indent_of raw) (par_indent st))
                then nl else "")
               +:+ ("\item " +:+ text) +:+ nl) ∧
    environments st'
    = environments st ++ (if env_begin (clean ignore_properties raw) is Some e
                          then [(indent_of raw, e)] else []).
Proof.
  intros Hreach Hstack Hlist Hsize Hindent Hline Heq.
  pose proof (reachable_consistent _ _ _ Hreach) as Hst.
  destruct (process_line_spec indent_size ignore_properties st raw Hst Hline)
    as (keep & closed & st' & body & Hsplit & Hkeep & Hclosed & Hrun & Henvs & _
        & _ & Hst' & Hbody).
  assert (Forall (λ f, f.1 < indent_of raw) (environments st)) as Hall.
  { destruct Hst as [_ Horder]. rewrite Hstack in Horder |- *.
    apply Forall_app. split; [|repeat constructor; simpl; lia].
    apply Forall_forall. intros f Hf.
    pose proof (StronglySorted_app_1_elem_of _ _ _ f (ind, env) Horder Hf) as Hlt.
    simpl in Hlt. specialize (Hlt (list_elem_of_here _ _)). lia. }
  assert (closed = []) as ->.
  { destruct closed as [|f closed]; [done|]. rewrite Hsplit in Hall.
    apply Forall_app in Hall as [_ Hall]. inversion_clear Hall.
    inversion_clear Hclosed. lia. }
  rewrite app_nil_r in Hsplit. subst keep.
  unfold render in Hbody. rewrite Heq in Hbody.
  destruct (inline_total (clean ignore_properties raw)) as [text Htext].
  rewrite Htext in Hbody. cbn [mbind result_bind] in Hbody.
  rewrite bool_decide_eq_true_2 in Hbody.
  2:{ apply (enum_indents_is_item _ _ _ Hst'). exists (ind, env).
      split_and!; [|done..]. rewrite Henvs, Hstack.
      apply elem_of_app. left. apply elem_of_app. right. apply list_elem_of_here. }
  injection Hbody as <-. exists st', text. split_and!; [done| |done].
  by rewrite Hrun.
Qed.

Lemma list_item_marked_witness :
  reachable 4 default_ignore st_itemize ∧
  environments st_itemize = [] ++ [(0, "itemize")] ∧
  is_list_env "itemize" ∧
  0 < 4 ∧
  indent_of ("    - one" +:+ nl) = 0 + 4 ∧
  is_section (clean default_ignore ("    - one" +:+ nl)) = false ∧
  latex_eq (clean default_ignore ("    - one" +:+ nl)) = None ∧
  ∃ st' text,
    inline (clean default_ignore ("    - one" +:+ nl)) = Ok text ∧
    process_line 4 default_ignore st_itemize ("    - one" +:+ nl)
    = Ok (st', (if bool_decide (indent_of ("    - one" +:+ nl)
                                ≤ default (indent_of ("    - one" +:+ nl))
                                    (par_indent st_itemize))
                then nl else "")
               +:+ ("\item " +:+ text) +:+ nl) ∧
    environments st'
    = environments st_itemize
      ++ (if env_begin (clean default_ignore ("    - one" +:+ nl)) is Some e
          then [(indent_of ("    - one" +:+ nl), e)] else []).
Proof.
  split; [apply reachable_itemize|]. split; [reflexivity|]. split; [exact I|].
  split; [lia|]. do 3 (split; [reflexivity|]).
  apply (list_item_marked 4 default_ignore st_itemize ("    - one" +:+ nl)
           [] 0 "itemize");
    [apply reachable_itemize|reflexivity|exact I|lia|reflexivity..].
Defined.

(** X15, lines 41 to 134.  The result of a conversion is decided by the
    heading lines alone: it returns a document exactly when no line of the
    input is a heading after cleaning, and otherwise it raises, and the
    exception is a [TypeError]. *)
Theorem conversion_result content preamble indent_size ignore_properties :
  match convert_to_tex content preamble indent_size ignore_properties with
  | Ok _ =>
      Forall (λ line, is_section (clean ignore_properties line) = false)
        (Py.readlines content)
  | Raise e =>
      e = TypeError ∧
      Exists (λ line, is_section (clean ignore_properties line) = true)
        (Py.readlines content)
  end.
Proof.
  destruct (Exists_dec (λ line, is_section (clean ignore_properties line) = true)
              (Py.readlines content)) as [Hex|Hall].
  - unfold convert_to_tex.
    by rewrite (convert_lines_heading_from indent_size ignore_properties _ initial _
                  (initial_consistent _) Hex).
  - assert (Forall (λ line, is_section (clean ignore_properties line) = false)
              (Py.readlines content)) as Hno.
    { apply Forall_forall. intros line Hin.
      destruct (is_section (clean ignore_properties line)) eqn:E; [|done].
      exfalso. apply Hall, Exists_exists. eauto. }
    by destruct (convert_to_tex_total indent_size ignore_properties content preamble Hno)
      as [out ->].
Qed.

Lemma balance_of_lines indent_size ignore_properties lines : ∀ st out,
  consistent indent_size st →
  Forall (λ line, is_section (clean ignore_properties line) = false) lines →
  ∃ st' segs,
    convert_lines indent_size ignore_properties st out lines
    = Ok (st', out +:+ segments_text segs) ∧
    Forall2 (λ line seg, Forall (λ f, indent_of line ≤ f.1) seg.1) lines segs ∧
    environments st ++ omap (opened_frame ignore_properties) lines
    ≡ₚ concat segs.*1 ++ environments st'.
Proof.
  induction lines as [|line lines IH]; intros st out Hst Hall.
  { exists st, []. cbn [convert_lines segments_text fmap list_fmap concat omap list_omap].
    rewrite sapp_nil_r, app_nil_r. split_and!; [done|constructor|done]. }
  inversion_clear Hall as [|?? Hline Hlines].
  destruct (process_line_spec indent_size ignore_properties st line Hst Hline)
    as (keep & closed & st1 & body & Hsplit & _ & Hclosed & Hrun & Henvs & _ & _
        & Hst1 & _).
  cbn [convert_lines]. rewrite Hrun. cbn [mbind result_bind].
  destruct (IH st1 (out +:+ closing_text (reverse closed)
                     +:+ (if bool_decide
                               (indent_of line
                                ≤ default (indent_of line) (par_indent st))
                          then nl else "")
                     +:+ body +:+ nl) Hst1 Hlines)
    as (st' & segs & -> & Hsegs & Hperm).
  exists st',
    ((closed, (if bool_decide
                    (indent_of line ≤ default (indent_of line) (par_indent st))
               then nl else "") +:+ body +:+ nl) :: segs).
  split_and!.
  - cbn [segments_text]. by rewrite !sapp_assoc.
  - by constructor.
  - cbn [fmap list_fmap concat omap list_omap fst].
    rewrite <-(assoc_L (++) closed), <-Hperm, Henvs, Hsplit.
    unfold opened_frame at 1.
    destruct (env_begin (clean ignore_properties line)) as [e|]; cbn [fmap option_fmap option_map];
      cbn [app]; solve_Permutation.
Qed.

(** X16, lines 54 to 131.  The end commands of a document balance its
    begin commands.  For an input without heading lines the output is the
    preamble, the begin of the document, then for each line the end commands
    of the frames it closes followed by the rest of the line's text, then
    the end commands of the frames still open, and the end of the document;
    every frame a line closes stands at or right of the line's indent; and
    the frames closed by the lines together with those closed at the end are
    exactly the frames the lines opened, each one once. *)
Theorem stack_balance content preamble indent_size ignore_properties :
  Forall (λ line, is_section (clean ignore_properties line) = false)
    (Py.readlines content) →
  ∃ segs remaining,
    convert_to_tex content preamble indent_size ignore_properties
    = Ok (preamble +:+ "\begin{document}" +:+ segments_text segs
          +:+ final_closing remaining +:+ nl +:+ "\end{document}") ∧
    Forall2 (λ line seg, Forall (λ f, indent_of line ≤ f.1) seg.1)
      (Py.readlines content) segs ∧
    omap (opened_frame ignore_properties) (Py.readlines content)
    ≡ₚ concat segs.*1 ++ remaining.
Proof.
  intros Hall. unfold convert_to_tex.
  destruct (balance_of_lines indent_size ignore_properties (Py.readlines content)
              initial (preamble +:+ "\begin{document}") (initial_consistent _) Hall)
    as (st' & segs & -> & Hsegs & Hperm).
  cbn [mbind result_bind]. exists segs, (environments st').
  split_and!; [|done|done]. unfold final_closing.
  case_bool_decide; by rewrite ?sapp_nil_l, !sapp_assoc.
Qed.

Lemma stack_balance_witness :
  Forall (λ line, is_section (clean default_ignore line) = false)
    (Py.readlines ("\begin{itemize}" +:+ nl +:+ "    - one" +:+ nl
                   +:+ "  \begin{proof}" +:+ nl)) ∧
  ∃ segs remaining,
    convert_to_tex ("\begin{itemize}" +:+ nl +:+ "    - one" +:+ nl
                    +:+ "  \begin{proof}" +:+ nl) default_preamble 4 default_ignore
    = Ok (default_preamble +:+ "\begin{document}" +:+ segments_text segs
          +:+ final_closing remaining +:+ nl +:+ "\end{document}") ∧
    Forall2 (λ line seg, Forall (λ f, indent_of line ≤ f.1) seg.1)
      (Py.readlines ("\begin{itemize}" +:+ nl +:+ "    - one" +:+ nl
                     +:+ "  \begin{proof}" +:+ nl)) segs ∧
    omap (opened_frame default_ignore)
      (Py.readlines ("\begin{itemize}" +:+ nl +:+ "    - one" +:+ nl
                     +:+ "  \begin{proof}" +:+ nl))
    ≡ₚ concat segs.*1 ++ remaining.
Proof.
  assert (Forall (λ line, is_section (clean default_ignore line) = false)
            (Py.readlines ("\begin{itemize}" +:+ nl +:+ "    - one" +:+ nl
                           +:+ "  \begin{proof}" +:+ nl))) as Hall.
  { repeat first [apply Forall_nil_2 | apply Forall_cons_2; [reflexivity|]]. }
  split; [exact Hall|].
  apply (stack_balance ("\begin{itemize}" +:+ nl +:+ "    - one" +:+ nl
                        +:+ "  \begin{proof}" +:+ nl) default_preamble 4
           default_ignore Hall).
Defined.

(** ** The indent size of the command line *)

Lemma close_environments_v_int indent z length snapshot : ∀ i acc,
  close_environments_v indent (PyInt z) length i snapshot acc
  = close_environments indent z length i snapshot acc.
Proof.
  induction snapshot as [|[ind env] snapshot IH]; intros i [[text envs] enums]; [done|].
  cbn [close_environments_v close_environments]. case_bool_decide; [|done].
  destruct (Py.pop envs (length - i - 1)) as [envs'|]; [|done].
  cbn [mbind result_bind py_add].
  destruct (is_list_env env); cbn [mbind result_bind]; [|apply IH].
  destruct (Py.remove (ind + z) enums) as [enums'|]; [|done].
  cbn [mbind result_bind]. apply IH.
Qed.

Lemma process_line_v_int z ignore_properties st raw :
  process_line_v (PyInt z) ignore_properties st raw
  = process_line z ignore_properties st raw.
Proof.
  unfold process_line_v, process_line.
  destruct (match_indent raw) as [[g t]|]; [|done]. cbn [mbind result_bind].
  destruct (if is_section (clean ignore_properties raw) then _ else _) as [sec par].
  rewrite close_environments_v_int.
  destruct (close_environments _ _ _ _ _ _) as [[[text envs] enums]|]; [|done].
  cbn [mbind result_bind].
  destruct (paragraph_break _ _ _) as [[text' par']|]; [|done].
  cbn [mbind result_bind]. unfold open_environment_v, open_environment.
  destruct (env_begin _) as [e|]; [|done].
  by destruct (is_list_env e).
Qed.

Lemma convert_to_tex_v_int content preamble z ignore_properties :
  convert_to_tex_v content preamble (PyInt z) ignore_properties
  = convert_to_tex content preamble z ignore_properties.
Proof.
  unfold convert_to_tex_v, convert_to_tex.
  assert (∀ lines st out,
            convert_lines_v (PyInt z) ignore_properties st out lines
            = convert_lines z ignore_properties st out lines) as ->; [|done].
  induction lines as [|line lines IH]; intros st out; [done|].
  cbn [convert_lines_v convert_lines]. rewrite process_line_v_int.
  destruct (process_line _ _ _ _) as [[st' text]|]; [|done]. apply IH.
Qed.

Lemma close_environments_v_listless indent v z length snapshot : ∀ i acc,
  Forall (λ f, is_list_env f.2 = false) snapshot →
  close_environments_v indent v length i snapshot acc
  = close_environments indent z length i snapshot acc.
Proof.
  induction snapshot as [|[ind env] snapshot IH]; intros i [[text envs] enums] Hall;
    [done|].
  inversion_clear Hall as [|?? Henv Hall']. simpl in Henv.
  cbn [close_environments_v close_environments]. case_bool_decide; [|done].
  destruct (Py.pop envs (length - i - 1)) as [envs'|]; [|done].
  rewrite Henv. cbn [mbind result_bind]. by apply IH.
Qed.

Lemma listless_consistent indent_size st : listless st → consistent indent_size st.
Proof.
  intros [Hframes Hitems Horder]. split; [|done]. rewrite Hitems.
  unfold item_indents. clear -Hframes.
  induction Hframes as [|f fs Hf _ IH]; [done|].
  cbn [omap list_omap]. unfold item_indent at 1. by rewrite Hf.
Qed.

Section cli.
Variables (s : string) (z : Z) (ignore_properties : list string).

Lemma process_line_v_str st raw :
  listless st →
  process_line_v (PyStr s) ignore_properties st raw
  = if is_section (clean ignore_properties raw) || opens_list ignore_properties raw
    then Raise TypeError
    else process_line z ignore_properties st raw.
Proof.
  intros Hst. pose proof (listless_consistent z st Hst) as Hcons.
  destruct (is_section (clean ignore_properties raw)) eqn:Hline; cbn [orb].
  - pose proof (process_line_heading z ignore_properties st raw Hcons Hline) as Hrun.
    unfold process_line in Hrun. unfold process_line_v.
    destruct (match_indent raw) as [[g t]|]; [|done].
    cbn [mbind result_bind] in Hrun |- *. rewrite Hline in Hrun |- *.
    rewrite (close_environments_v_listless _ _ z).
    2:{ apply Forall_reverse, Hst. }
    destruct (close_environments _ _ _ _ _ _) as [[[text envs] enums]|]; [|done].
    done.
  - destruct (process_line_spec z ignore_properties st raw Hcons Hline)
      as (keep & closed & st' & body & _ & _ & _ & Hrun & _).
    unfold process_line in Hrun |- *. unfold process_line_v.
    destruct (match_indent raw) as [[g t]|]; [|done].
    cbn [mbind result_bind] in Hrun |- *.
    destruct (if is_section (clean ignore_properties raw) then _ else _) as [sec par].
    rewrite (close_environments_v_listless _ _ z).
    2:{ apply Forall_reverse, Hst. }
    destruct (close_environments _ _ _ _ _ _) as [[[text envs] enums]|]; [|done].
    cbn [mbind result_bind] in Hrun |- *.
    destruct (paragraph_break _ _ _) as [[text' par']|]; [|done].
    cbn [mbind result_bind] in Hrun |- *.
    rewrite headings_not_section in Hrun |- * by done.
    unfold open_environment_v, open_environment, opens_list.
    destruct (env_begin (clean ignore_properties raw)) as [e|]; [|done].
    by destruct (is_list_env e).
Qed.

Lemma process_line_listless st raw st' text :
  listless st →
  opens_list ignore_properties raw = false →
  process_line z ignore_properties st raw = Ok (st', text) →
  listless st'.
Proof.
  intros Hst Hopen Hrun.
  destruct (process_line_Ok_spec _ _ _ _ _ _ (listless_consistent z st Hst) Hrun)
    as (_ & keep & closed & ? & Hsplit & _ & _ & _ & Henvs & _ & _ & [Hitems Horder] & _).
  assert (Forall (λ f, is_list_env f.2 = false) (environments st')) as Hframes.
  { rewrite Henvs. apply Forall_app. split.
    - pose proof (listless_frames st Hst) as H. rewrite Hsplit in H.
      by apply Forall_app in H as [H _].
    - unfold opens_list in Hopen.
      destruct (env_begin (clean ignore_properties raw)) as [e|]; [|done].
      by repeat constructor. }
  split; [done| |done].
  apply Permutation_nil_r. rewrite Hitems. unfold item_indents.
  clear -Hframes. induction Hframes as [|f fs Hf _ IH]; [done|].
  cbn [omap list_omap]. unfold item_indent at 1. by rewrite Hf.
Qed.

Lemma convert_lines_v_str lines : ∀ st out,
  listless st →
  match convert_lines_v (PyStr s) ignore_properties st out lines with
  | Ok r =>
      convert_lines z ignore_properties st out lines = Ok r ∧
      Forall (λ line, opens_list ignore_properties line = false) lines
  | Raise e =>
      e = TypeError ∧
      Exists (λ line, is_section (clean ignore_properties line) = true ∨
                      opens_list ignore_properties line = true) lines
  end.
Proof.
  induction lines as [|line lines IH]; intros st out Hst; [done|].
  cbn [convert_lines_v convert_lines]. rewrite process_line_v_str by done.
  destruct (is_section (clean ignore_properties line)) eqn:Hline; cbn [orb].
  { split; [done|]. apply Exists_cons_hd. by left. }
  destruct (opens_list ignore_properties line) eqn:Hopen.
  { split; [done|]. apply Exists_cons_hd. by right. }
  destruct (process_line z ignore_properties st line) as [[st' text]|e] eqn:Hrun.
  - cbn [mbind result_bind].
    specialize (IH st' (out +:+ text) (process_line_listless _ _ _ _ Hst Hopen Hrun)).
    destruct (convert_lines_v _ _ _ _ _) as [r|e].
    + destruct IH as [-> Hall]. split; [done|]. by constructor.
    + destruct IH as [-> Hex]. split; [done|]. by apply Exists_cons_tl.
  - destruct (process_line_spec z ignore_properties st line
                (listless_consistent z st Hst) Hline) as (?&?&?&?&_&_&_&Hrun'&_).
    congruence.
Qed.
End cli.

(** X17, lines 84, 103, 144 and 150.  The parser is given no type for the
    indent size, so a size given on the command line is a string, and adding
    it to an indent raises.  Whatever the size given and whatever the text
    the loop reads from the input file: if the call returns a document, no
    line read begins a list and the document is the one written for the same
    text without the option; otherwise the exception is a [TypeError] and the
    text read holds a heading line or a line that begins a list. *)
Theorem indent_size_option_never_applies args content s :
  indent_size_arg args = Some s →
  match call_result (main args) content with
  | Ok out =>
      call_result
        (main (ParsedArguments (infile args) (outfile args) None
                 (preamble_arg args)))
        content = Ok out ∧
      Forall (λ line, opens_list default_ignore line = false)
        (Py.readlines content)
  | Raise e =>
      e = TypeError ∧
      Exists (λ line, is_section (clean default_ignore line) = true ∨
                      opens_list default_ignore line = true)
        (Py.readlines content)
  end.
Proof.
  intros Hs. unfold call_result, main. rewrite Hs.
  cbn [call_preamble call_indent_size call_ignore indent_size_arg preamble_arg].
  rewrite convert_to_tex_v_int. unfold convert_to_tex_v, convert_to_tex.
  set (out0 := default default_preamble (preamble_arg args) +:+ "\begin{document}").
  assert (listless initial) as Hinit by (split; [done|done|constructor]).
  pose proof (convert_lines_v_str s 4 default_ignore (Py.readlines content)
                initial out0 Hinit) as H.
  destruct (convert_lines_v _ _ _ _ _) as [[st out]|e].
  - destruct H as [-> Hall]. done.
  - done.
Qed.

Lemma indent_size_option_never_applies_witness :
  indent_size_arg (ParsedArguments "notes.md" None (Some "2") None) = Some "2" ∧
  match call_result (main (ParsedArguments "notes.md" None (Some "2") None)) ("\begin{itemize}" +:+ nl +:+ "  - one" +:+ nl) with
  | Ok out =>
      call_result
        (main (ParsedArguments (infile (ParsedArguments "notes.md" None (Some "2") None)) (outfile (ParsedArguments "notes.md" None (Some "2") None)) None
                 (preamble_arg (ParsedArguments "notes.md" None (Some "2") None))))
        ("\begin{itemize}" +:+ nl +:+ "  - one" +:+ nl) = Ok out ∧
      Forall (λ line, opens_list default_ignore line = false)
        (Py.readlines ("\begin{itemize}" +:+ nl +:+ "  - one" +:+ nl))
  | Raise e =>
      e = TypeError ∧
      Exists (λ line, is_section (clean default_ignore line) = true ∨
                      opens_list default_ignore line = true)
        (Py.readlines ("\begin{itemize}" +:+ nl +:+ "  - one" +:+ nl))
  end.
Proof.
  split; [reflexivity|].
  apply (indent_size_option_never_applies
           (ParsedArguments "notes.md" None (Some "2") None)
           ("\begin{itemize}" +:+ nl +:+ "  - one" +:+ nl) "2").
  reflexivity.
Defined.

(** ** The name of the output file *)

Lemma take_drop_str n p : take_str n p +:+ drop_str n p = p.
Proof.
  revert p. induction n as [|n IH]; intros [|c p]; try done.
  cbn [take_str drop_str]. by rewrite sapp_cons, IH.
Qed.

Lemma take_str_app a b : take_str (String.length a) (a +:+ b) = a.
Proof.
  induction a as [|c a IH]; [by destruct b|].
  rewrite sapp_cons. cbn [String.length take_str]. by rewrite IH.
Qed.

Lemma drop_str_app a b : drop_str (String.length a) (a +:+ b) = b.
Proof.
  induction a as [|c a IH]; [by destruct b|].
  rewrite sapp_cons. cbn [String.length drop_str]. done.
Qed.

(** [rfind] returns -1 when the character is absent, and otherwise splits the
    string at its last occurrence. *)
Lemma rfind_from_spec c p : ∀ i,
  0 ≤ i →
  (rfind_from c p i = -1 ∧ Py.contains (String c "") p = false) ∨
  ∃ a b, p = a +:+ String c b ∧
         rfind_from c p i = i + Z.of_nat (String.length a) ∧
         Py.contains (String c "") b = false.
Proof.
  induction p as [|x p IH]; intros i Hi; [by left|].
  cbn [rfind_from]. rewrite contains_char.
  destruct (IH (i + 1) ltac:(lia)) as [[-> Hfree]|(a & b & -> & -> & Hfree)].
  - rewrite bool_decide_eq_false_2 by lia.
    rewrite (Ascii.eqb_sym c x). destruct (Ascii.eqb_spec x c) as [->|Hne].
    + right. exists "", p. rewrite sapp_nil_l. simpl. split_and!; [done|lia|done].
    + left. by rewrite Hfree.
  - rewrite bool_decide_eq_true_2 by lia. right.
    exists (String x a), b. rewrite sapp_cons. cbn [String.length].
    split_and!; [done|lia|done].
Qed.

Lemma app_split_longer a s a' s' :
  a +:+ s = a' +:+ s' → (String.length a' ≤ String.length a)%nat →
  ∃ x, a = a' +:+ x ∧ s' = x +:+ s.
Proof.
  revert a. induction a' as [|c a' IH]; intros a Heq Hlen.
  - exists a. by rewrite !sapp_nil_l in *.
  - destruct a as [|d a]; [simpl in Hlen; lia|].
    rewrite !sapp_cons in Heq. injection Heq as -> Heq.
    destruct (IH a Heq) as (x & -> & ->); [simpl in Hlen; lia|].
    by exists x.
Qed.

Lemma splitext_spec p :
  ∃ root ext,
    splitext p = (root, ext) ∧ p = root +:+ ext ∧
    (ext = "" ∨
     ∃ e, ext = String "." e ∧
          Py.contains "." e = false ∧ Py.contains "/" e = false).
Proof.
  unfold splitext, rfind.
  destruct (bool_decide (rfind_from "/" p 0 < rfind_from "." p 0)
            && name_before_dot p _ _) eqn:Hcond.
  2:{ exists p, "". rewrite sapp_nil_r. split_and!; [done..|by left]. }
  apply andb_true_iff in Hcond as [Hlt%bool_decide_eq_true _].
  destruct (rfind_from_spec "." p 0 ltac:(lia))
    as [[Hdot _]|(a & b & Hp & Hdot & Hfree)].
  { destruct (rfind_from_spec "/" p 0 ltac:(lia)) as [[? _]|(?&?&_&?&_)]; lia. }
  eexists _, _. split; [done|]. split; [by rewrite take_drop_str|].
  right. exists b. rewrite Hdot, Z.add_0_l, Nat2Z.id, Hp, drop_str_app.
  split_and!; [done..|].
  destruct (rfind_from_spec "/" p 0 ltac:(lia))
    as [[_ Hnone]|(a' & b' & Hp' & Hsep & Hfree')].
  - rewrite Hp in Hnone. apply contains_suffix in Hnone.
    rewrite contains_char in Hnone. by apply orb_false_elim in Hnone as [_ ?].
  - rewrite Hp in Hp'.
    replace (a' +:+ String "/" b') with ((a' +:+ "/") +:+ b') in Hp'
      by (by rewrite sapp_assoc).
    destruct (app_split_longer a (String "." b) (a' +:+ "/") b' Hp') as (x & _ & ->).
    { rewrite sapp_length. simpl. lia. }
    apply contains_suffix in Hfree'. rewrite contains_char in Hfree'.
    by apply orb_false_elim in Hfree' as [_ ?].
Qed.

(** X18, line 149.  Without an output name, the output file is named after
    the input: the input name without its extension, with [.tex] added.
    The extension removed is empty or a dot followed by characters that are
    neither dots nor slashes. *)
Theorem default_outfile_name args :
  outfile args = None →
  ∃ root ext,
    infile args = root +:+ ext ∧
    call_outfile (main args) = root +:+ ".tex" ∧
    (ext = "" ∨
     ∃ e, ext = String "." e ∧
          Py.contains "." e = false ∧ Py.contains "/" e = false).
Proof.
  intros Hout. unfold main. rewrite Hout. cbn [call_outfile].
  destruct (splitext_spec (infile args)) as (root & ext & -> & Hp & Hext).
  by exists root, ext.
Qed.

Lemma default_outfile_name_witness :
  outfile (ParsedArguments "notes.md" None None None) = None ∧
  ∃ root ext,
    infile (ParsedArguments "notes.md" None None None) = root +:+ ext ∧
    call_outfile (main (ParsedArguments "notes.md" None None None))
    = root +:+ ".tex" ∧
    (ext = "" ∨
     ∃ e, ext = String "." e ∧
          Py.contains "." e = false ∧ Py.contains "/" e = false).
Proof.
  split; [reflexivity|].
  apply (default_outfile_name (ParsedArguments "notes.md" None None None)).
  reflexivity.
Defined.

Lemma rfind_from_absent c p : ∀ i,
  Py.contains (String c "") p = false → rfind_from c p i = -1.
Proof.
  induction p as [|x p IH]; intros i; [done|].
  rewrite contains_char. intros [Hx Hp]%orb_false_elim.
  cbn [rfind_from]. rewrite (IH _ Hp), bool_decide_eq_false_2 by lia.
  by rewrite Ascii.eqb_sym, Hx.
Qed.

Lemma rfind_from_app_absent c a s : ∀ i,
  Py.contains (String c "") s = false →
  rfind_from c (a +:+ s) i = rfind_from c a i.
Proof.
  induction a as [|x a IH]; intros i Hs.
  - rewrite sapp_nil_l. by apply rfind_from_absent.
  - rewrite sapp_cons. cbn [rfind_from]. by rewrite IH.
Qed.

Lemma rfind_from_last c a b : ∀ i,
  0 ≤ i →
  Py.contains (String c "") b = false →
  rfind_from c (a +:+ String c b) i = i + Z.of_nat (String.length a).
Proof.
  induction a as [|x a IH]; intros i Hi Hb.
  - rewrite sapp_nil_l. cbn [rfind_from]. rewrite (rfind_from_absent _ _ _ Hb).
    rewrite bool_decide_eq_false_2 by lia. rewrite Ascii.eqb_refl. simpl. lia.
  - rewrite sapp_cons. cbn [rfind_from String.length].
    rewrite IH by (done || lia). rewrite bool_decide_eq_true_2 by lia. lia.
Qed.

Lemma rfind_from_bound c a i :
  0 ≤ i → -1 ≤ rfind_from c a i < i + Z.of_nat (String.length a) ∨ a = "".
Proof.
  intros Hi. destruct (rfind_from_spec c a i Hi) as [[-> _]|(a1 & b & -> & -> & _)].
  - destruct a; [by right|left]. simpl. lia.
  - left. rewrite sapp_length. simpl. lia.
Qed.

Lemma get_app_here a c b : String.get (String.length a) (a +:+ String c b) = Some c.
Proof. induction a as [|x a IH]; [done|]. by rewrite sapp_cons. Qed.

Lemma name_before_dot_found p j x : ∀ count start,
  String.get j p = Some x → x ≠ "."%char →
  (start ≤ j < start + count)%nat →
  name_before_dot p start count = true.
Proof.
  induction count as [|count IH]; intros start Hget Hx Hj; [lia|].
  cbn [name_before_dot]. case_bool_decide as Hdot; [done|].
  apply IH; [done..|].
  destruct (decide (j = start)) as [->|]; [|lia].
  rewrite Hget in Hdot. congruence.
Qed.

(** The extension of a file name with a character other than a dot before
    its last dot. *)
Lemma splitext_extension dir c name e :
  c ≠ "."%char → c ≠ "/"%char →
  Py.contains "/" name = false →
  Py.contains "." e = false → Py.contains "/" e = false →
  splitext (dir +:+ String c name +:+ String "." e)
  = (dir +:+ String c name, String "." e).
Proof.
  intros Hc1 Hc2 Hname He1 He2. unfold splitext, rfind.
  set (p := dir +:+ String c name +:+ String "." e).
  assert (p = (dir +:+ String c name) +:+ String "." e) as Hp
    by (unfold p; by rewrite !sapp_assoc, !sapp_cons).
  assert (rfind_from "." p 0 = Z.of_nat (String.length (dir +:+ String c name)))
    as Hdot.
  { rewrite Hp, rfind_from_last by (done || lia). lia. }
  assert (Py.contains "/" (String c name +:+ String "." e) = false) as Htail.
  { rewrite sapp_cons, contains_char.
    destruct (Ascii.eqb_spec "/" c) as [<-|_]; [done|]. cbn [orb].
    apply contains_char_all. rewrite all_chars_app. apply andb_true_iff.
    split; [by apply contains_char_all|]. cbn [all_chars].
    apply andb_true_iff. split; [done|]. by apply contains_char_all. }
  assert (-1 ≤ rfind_from "/" p 0 < Z.of_nat (String.length dir) ∨
          rfind_from "/" p 0 = -1) as Hsep.
  { unfold p. rewrite rfind_from_app_absent by done.
    destruct (rfind_from_bound "/" dir 0 ltac:(lia)) as [?| ->]; [left; lia|by right]. }
  rewrite Hdot, Nat2Z.id.
  assert (String.length (dir +:+ String c name)
          = (String.length dir + S (String.length name))%nat) as Hlen
    by (by rewrite sapp_length).
  rewrite bool_decide_eq_true_2 by lia. cbn [andb].
  rewrite (name_before_dot_found p (String.length dir) c).
  - rewrite Hp at 1 2. by rewrite take_str_app, drop_str_app.
  - unfold p. apply get_app_here.
  - done.
  - lia.
Qed.

(** X19, line 149.  When the last dot of the input name has a character
    before it that is neither a dot nor a slash, and only characters of the
    file name stand between the two and after the dot, the extension from
    that dot on is replaced by [.tex]; an input named [.tex] without an
    output name is therefore given its own name as output name. *)
Theorem outfile_replaces_extension args dir c name e :
  outfile args = None →
  infile args = dir +:+ String c name +:+ String "." e →
  c ≠ "."%char → c ≠ "/"%char →
  Py.contains "/" name = false →
  Py.contains "." e = false → Py.contains "/" e = false →
  call_outfile (main args) = dir +:+ String c name +:+ ".tex" ∧
  (e = "tex" → call_outfile (main args) = infile args).
Proof.
  intros Hout Hin Hc1 Hc2 Hname He1 He2. unfold main. rewrite Hout, Hin.
  cbn [call_outfile]. rewrite splitext_extension by done. cbn [fst].
  split; [by rewrite !sapp_assoc|]. intros ->. by rewrite !sapp_assoc.
Qed.

Lemma outfile_replaces_extension_witness :
  outfile (ParsedArguments "out/notes.tex" None None None) = None ∧
  infile (ParsedArguments "out/notes.tex" None None None)
  = "out/" +:+ String "n" "otes" +:+ String "." "tex" ∧
  "n"%char ≠ "."%char ∧ "n"%char ≠ "/"%char ∧
  Py.contains "/" "otes" = false ∧
  Py.contains "." "tex" = false ∧ Py.contains "/" "tex" = false ∧
  call_outfile (main (ParsedArguments "out/notes.tex" None None None))
  = "out/" +:+ String "n" "otes" +:+ ".tex" ∧
  ("tex" = "tex" →
   call_outfile (main (ParsedArguments "out/notes.tex" None None None))
   = infile (ParsedArguments "out/notes.tex" None None None)).
Proof.
  split; [reflexivity|]. split; [reflexivity|].
  split; [discriminate|]. split; [discriminate|]. do 3 (split; [reflexivity|]).
  apply (outfile_replaces_extension (ParsedArguments "out/notes.tex" None None None)
           "out/" "n" "otes" "tex");
    [reflexivity|reflexivity|discriminate|discriminate|reflexivity..].
Defined.
